(** * Verification of the scrapper (lab 5) and the CONLL-U pipeline (lab 6)

    A shallow embedding of [lab_5_scrapper/scrapper.py] and
    [lab_6_pipeline/pipeline.py].  Python values are modelled as follows.

    - A Python [str] is the list of its Unicode code points ([list N]).
      [isspace] is the whole Unicode white space.  The tables of digits,
      letters and cases are those of Python on Basic Latin and on the
      Cyrillic range U+0400..U+045F, the alphabet of the crawled site; a
      string of such characters is [covered].  Outside them the tables
      treat a code point as a caseless symbol, which Python does not, so a
      property that depends on the tables is stated for covered strings.
    - A Python [int] is a [Z]; a [dict] keyed by article id is a [gmap Z].
    - A raised exception is the [inl] of a sum, a normal return its [inr]. *)

From Stdlib Require Import ZArith NArith String Ascii Lia.
From stdpp Require Import base option list gmap sorting.

Local Open Scope N_scope.

(** ** Python strings *)

Module Py.

Abbreviation str := (list N).

(** UTF-8 decoding of a Rocq string literal into code points; it is only
    used to write the string constants of the source legibly. *)
Fixpoint decode (bs : list N) : str :=
  match bs with
  | [] => []
  | b0 :: t0 =>
    if b0 <? 128 then b0 :: decode t0 else
    match t0 with
    | [] => []
    | b1 :: t1 =>
      if b0 <? 224 then ((b0 mod 32) * 64 + b1 mod 64) :: decode t1 else
      match t1 with
      | [] => []
      | b2 :: t2 =>
        if b0 <? 240
        then ((b0 mod 16) * 4096 + (b1 mod 64) * 64 + b2 mod 64) :: decode t2
        else
        match t2 with
        | [] => []
        | b3 :: t3 =>
          ((b0 mod 8) * 262144 + (b1 mod 64) * 4096
           + (b2 mod 64) * 64 + b3 mod 64) :: decode t3
        end
      end
    end
  end.

Definition u (s : string) : str :=
  decode (List.map N_of_ascii (list_ascii_of_string s)).

Definition chr (a : ascii) : N := N_of_ascii a.

Definition between (lo hi c : N) : bool := (lo <=? c) && (c <=? hi).

(** The characters on which the tables of digits, letters and cases below
    are those of Python: Basic Latin and U+0400..U+045F. *)
Definition covered_char (c : N) : bool := (c <? 128) || between 1024 1119 c.

(** A string made of covered characters only. *)
Definition covered (s : str) : bool := forallb covered_char s.

(** [str.isspace] on one character: the Unicode white space. *)
Definition isspace (c : N) : bool :=
  between 9 13 c || between 28 32 c || (c =? 133) || (c =? 160)
  || (c =? 5760) || between 8192 8202 c || (c =? 8232) || (c =? 8233)
  || (c =? 8239) || (c =? 8287) || (c =? 12288).

(** [str.isdigit] on one covered character: the digits 0-9.  (Python also
    counts digits of other scripts, full-width and superscript digits.) *)
Definition isdigit_char (c : N) : bool := between 48 57 c.

(** [str.isalnum] on one covered character: the digits, A-Z, a-z and the
    Cyrillic letters.  (Python also counts the letters and digits of other
    blocks.) *)
Definition isalnum (c : N) : bool :=
  between 48 57 c || between 65 90 c || between 97 122 c
  || between 1024 1119 c.

(** [str.lower] on one covered character: A-Z, then U+0410..U+042F (the
    letters А-Я) and U+0400..U+040F (Ѐ-Џ).  (Python also lowers the cased
    letters of other blocks, one of them to two characters.) *)
Definition lower_char (c : N) : N :=
  if between 65 90 c then c + 32
  else if between 1040 1071 c then c + 32
  else if between 1024 1039 c then c + 80
  else c.

Definition lower (s : str) : str := List.map lower_char s.

(** [s.isdigit()]: non-empty and made of digits only. *)
Definition isdigit (s : str) : bool :=
  match s with
  | [] => false
  | _ => forallb isdigit_char s
  end.

Definition eqb (a b : str) : bool := bool_decide (a = b).

(** [c in s] for a one-character [c]. *)
Definition contains (c : N) (s : str) : bool := existsb (N.eqb c) s.

(** [x in l] for a list of strings [l]. *)
Definition mem (x : str) (l : list str) : bool := existsb (eqb x) l.

Fixpoint lstrip (s : str) : str :=
  match s with
  | [] => []
  | c :: t => if isspace c then lstrip t else s
  end.

Definition rstrip (s : str) : str := rev (lstrip (rev s)).

(** [s.strip()] *)
Definition strip (s : str) : str := rstrip (lstrip s).

(** [s.split()]: the maximal runs of characters that are not white space.
    [cur] is the run being read. *)
Fixpoint split_from (cur : str) (s : str) : list str :=
  match s with
  | [] => match cur with [] => [] | _ => [cur] end
  | c :: t =>
    if isspace c
    then match cur with [] => split_from [] t | _ => cur :: split_from [] t end
    else split_from (cur ++ [c]) t
  end.

Definition split (s : str) : list str := split_from [] s.

(** [sep.join(l)] *)
Fixpoint join (sep : str) (l : list str) : str :=
  match l with
  | [] => []
  | [x] => x
  | x :: rest => x ++ sep ++ join sep rest
  end.

(** [l.index(x)]: position of the first element equal to [x]; [None] stands
    for the [ValueError] of an absent element. *)
Fixpoint index (x : str) (l : list str) : option Z :=
  match l with
  | [] => None
  | y :: rest =>
    if eqb y x then Some 0%Z
    else match index x rest with
         | Some i => Some (i + 1)%Z
         | None => None
         end
  end.

(** [int(s)] for a covered string: optional surrounding white space, an
    optional sign, then decimal digits, with single underscores allowed
    between two digits; [None] is [ValueError].  (Python also reads the
    decimal digits of other scripts.) *)
Fixpoint digits_value (acc : Z) (s : str) : option Z :=
  match s with
  | [] => Some acc
  | c :: t =>
    if isdigit_char c
    then digits_value (10 * acc + Z.of_N (c - 48))%Z t
    else if c =? 95
    then match t with
         | d :: _ => if isdigit_char d then digits_value acc t else None
         | [] => None
         end
    else None
  end.

Definition unsigned_int (s : str) : option Z :=
  match s with
  | [] => None
  | c :: _ => if isdigit_char c then digits_value 0%Z s else None
  end.

Definition int (s : str) : option Z :=
  match strip s with
  | 43 :: t => unsigned_int t
  | 45 :: t => Z.opp <$> unsigned_int t
  | t => unsigned_int t
  end.

End Py.

Import Py.

(** ** Exceptions as results *)

(** The exception classes of both modules, with the built-in ones they let
    escape. *)
Inductive error :=
| IncorrectSeedURLError
| NumberOfArticlesOutOfRangeError
| IncorrectNumberOfArticlesError
| IncorrectHeadersError
| IncorrectEncodingError
| IncorrectTimeoutError
| IncorrectVerifyError
| InconsistentDatasetError
| EmptyDirectoryError
| FileNotFoundError
| NotADirectoryError
| ValueError
| AttributeError
| RequestException.

Module Result.

Definition bind {A B} (r : error + A) (k : A -> error + B) : error + B :=
  match r with
  | inl e => inl e
  | inr a => k a
  end.

(** [for x in l: body x state], stopping at the first exception. *)
Fixpoint for_each {A S} (l : list A) (body : A -> S -> error + S) (s : S)
  : error + S :=
  match l with
  | [] => inr s
  | x :: rest => bind (body x s) (for_each rest body)
  end.

(** [[f x for x in l]], stopping at the first exception. *)
Fixpoint comprehension {A B} (f : A -> error + B) (l : list A)
  : error + list B :=
  match l with
  | [] => inr []
  | x :: rest =>
    bind (f x) (fun y => bind (comprehension f rest) (fun ys => inr (y :: ys)))
  end.

End Result.

Notation "x <- r ;; k" := (Result.bind r (fun x => k))
  (at level 100, r at next level, right associativity).

(** ** Backtracking regular expressions

    The fragment of [re] that [datetime.strptime] compiles its format to:
    character classes, concatenation, ordered alternation and a greedy
    [+] on a class.  [run r s k] matches [r] at the start of [s] and hands
    the matched text and the remainder to the continuation [k]; when [k]
    fails the matcher backtracks, as [re.match] does. *)

Module Re.

Inductive regex :=
| Class (p : N -> bool)
| Cat (a b : regex)
| Alt (a b : regex)
| Plus (p : N -> bool).

Fixpoint star {A} (p : N -> bool) (k : str -> str -> option A) (w s : str)
  : option A :=
  match s with
  | c :: t =>
    if p c
    then match star p k (w ++ [c]) t with
         | Some x => Some x
         | None => k w s
         end
    else k w s
  | [] => k w []
  end.

Fixpoint run {A} (r : regex) (s : str) (k : str -> str -> option A)
  : option A :=
  match r with
  | Class p =>
    match s with
    | c :: t => if p c then k [c] t else None
    | [] => None
    end
  | Cat a b => run a s (fun w1 s1 => run b s1 (fun w2 s2 => k (w1 ++ w2) s2))
  | Alt a b =>
    match run a s k with
    | Some x => Some x
    | None => run b s k
    end
  | Plus p =>
    match s with
    | c :: t => if p c then star p k [c] t else None
    | [] => None
    end
  end.

Definition lit (a : ascii) : regex := Class (N.eqb (chr a)).
Definition range (lo hi : ascii) : regex := Class (between (chr lo) (chr hi)).
(** [\d] on covered characters, and [\s+].  (On a [str] Python's [\d]
    also matches the decimal digits of other scripts.) *)
Definition digit : regex := Class isdigit_char.
Definition spaces : regex := Plus isspace.

End Re.

(** ** [datetime] *)

Module datetime.

Record t := new { year : Z; month : Z; day : Z; hour : Z; minute : Z }.

Definition is_leap (y : Z) : bool :=
  ((y mod 4 =? 0) && negb (y mod 100 =? 0) || (y mod 400 =? 0))%Z.

Definition days_in_month (y m : Z) : Z :=
  (if m =? 2 then (if is_leap y then 29 else 28)
   else if (m =? 4) || (m =? 6) || (m =? 9) || (m =? 11) then 30
   else 31)%Z.

(** The groups of [_strptime.TimeRE] for the directives [%Y], [%m], [%d],
    [%H] and [%M]. *)
Import Re.
Definition re_Y : regex := Cat digit (Cat digit (Cat digit digit)).
Definition re_m : regex :=
  Alt (Cat (lit "1") (range "0" "2"))
      (Alt (Cat (lit "0") (range "1" "9")) (range "1" "9")).
Definition re_d : regex :=
  Alt (Cat (lit "3") (range "0" "1"))
      (Alt (Cat (range "1" "2") digit)
           (Alt (Cat (lit "0") (range "1" "9"))
                (Alt (range "1" "9") (Cat (lit " ") (range "1" "9"))))).
Definition re_H : regex :=
  Alt (Cat (lit "2") (range "0" "3")) (Alt (Cat (range "0" "1") digit) digit).
Definition re_M : regex := Alt (Cat (range "0" "5") digit) digit.

(** [datetime.datetime.strptime(data_string, '%Y-%m-%d %H:%M')]: the format
    becomes the expression [Y-m-d\s+H:M]; the first match must use up the
    whole string, the year must be at least [MINYEAR] and the day must
    exist in the month. *)
Definition strptime (data_string : str) : error + t :=
  let found :=
    run re_Y data_string (fun Y s =>
    run (lit "-") s (fun _ s =>
    run re_m s (fun m s =>
    run (lit "-") s (fun _ s =>
    run re_d s (fun d s =>
    run spaces s (fun _ s =>
    run re_H s (fun H s =>
    run (lit ":") s (fun _ s =>
    run re_M s (fun M s =>
    Some (Y, m, d, H, M, s)))))))))) in
  match found with
  | None => inl ValueError
  | Some (Y, m, d, H, M, rest) =>
    match rest, int Y, int m, int d, int H, int M with
    | [], Some year, Some month, Some day, Some hour, Some minute =>
      if ((1 <=? year) && (day <=? days_in_month year month))%Z
      then inr (new year month day hour minute)
      else inl ValueError
    | _, _, _, _, _, _ => inl ValueError
    end
  end.

End datetime.

(** ** [core_utils]: the article record *)

Module Article.

Record t := mk {
  url : option str;
  article_id : Z;
  title : str;
  author : list str;
  topics : list str;
  date : option datetime.t;
  text : str
}.

(** [Article(url, article_id)] *)
Definition new (url : option str) (article_id : Z) : t :=
  mk url article_id [] [] [] None [].

Definition set_title (v : str) (a : t) : t :=
  mk (url a) (article_id a) v (author a) (topics a) (date a) (text a).
Definition set_author (v : list str) (a : t) : t :=
  mk (url a) (article_id a) (title a) v (topics a) (date a) (text a).
Definition set_topics (v : list str) (a : t) : t :=
  mk (url a) (article_id a) (title a) (author a) v (date a) (text a).
Definition set_date (v : datetime.t) (a : t) : t :=
  mk (url a) (article_id a) (title a) (author a) (topics a) (Some v) (text a).
Definition set_text (v : str) (a : t) : t :=
  mk (url a) (article_id a) (title a) (author a) (topics a) (date a) v.

End Article.

(** ** lab_6_pipeline/pipeline.py *)

Module Pipeline.

(** *** The directory of raw files *)

(** One directory entry: its name, the size [stat] reports and the text
    that reading it returns. *)
Record file := { file_name : str; st_size : N; file_text : str }.

(** What [self.path] refers to. *)
Inductive path :=
| Missing
| NotDirectory
| Directory (entries : list file).

(** [s.endswith(suffix)] *)
Definition endswith (suffix s : str) : bool :=
  eqb (drop (length s - length suffix) s) suffix.

(** [self.path.glob('*_raw.txt')], in the order of the directory listing. *)
Definition glob_raw (p : path) : list file :=
  match p with
  | Directory entries =>
    List.filter (fun f => endswith (u "_raw.txt") (file_name f)) entries
  | _ => []
  end.

(** [s[:s.index(c)]]: the text before the first [c]; [ValueError] without
    one. *)
Fixpoint before_first (c : N) (s : str) : error + str :=
  match s with
  | [] => inl ValueError
  | x :: t => if x =? c then inr [] else p <- before_first c t ;; inr (x :: p)
  end.

(** [int(file.name[:file.name.index('_')])] *)
Definition id_of_name (nm : str) : error + Z :=
  p <- before_first (chr "_") nm ;;
  match int p with
  | Some i => inr i
  | None => inl ValueError
  end.

(** Modelled from the spec: [core_utils.article.io.from_raw], which is not
    part of the sources at hand.  The record read back from a raw file
    carries the numeric id parsed from the file name and the text of the
    file. *)
Definition from_raw (f : file) : error + Article.t :=
  i <- id_of_name (file_name f) ;;
  inr (Article.set_text (file_text f) (Article.new None i)).

(** [sorted] on integers and [list(range(1, n + 1))] *)
Definition sorted (l : list Z) : list Z := merge_sort Z.le l.
Definition range1 (n : nat) : list Z := seqZ 1 (Z.of_nat n).

(** *** CorpusManager *)

Module CorpusManager.

Definition _validate_dataset (p : path) : error + unit :=
  match p with
  | Missing => inl FileNotFoundError
  | NotDirectory => inl NotADirectoryError
  | Directory [] => inl EmptyDirectoryError
  | Directory _ =>
    let raw_files := glob_raw p in
    _ <- Result.for_each raw_files
           (fun file _ =>
              if st_size file =? 0 then inl InconsistentDatasetError
              else inr tt) tt ;;
    list_of_ids <-
      Result.comprehension (fun file => id_of_name (file_name file))
        raw_files ;;
    if bool_decide (sorted list_of_ids = range1 (length list_of_ids))
    then inr tt
    else inl InconsistentDatasetError
  end.

Definition _scan_dataset (p : path) (_storage : gmap Z Article.t)
  : error + gmap Z Article.t :=
  let files := glob_raw p in
  Result.for_each files
    (fun file _storage =>
       article <- from_raw file ;;
       inr (<[Article.article_id article := article]> _storage))
    _storage.

(** [CorpusManager(path)]: the storage of the constructed object. *)
Definition init (path_to_raw_txt_data : path) : error + gmap Z Article.t :=
  _ <- _validate_dataset path_to_raw_txt_data ;;
  _scan_dataset path_to_raw_txt_data ∅.

End CorpusManager.

(** *** ConlluToken *)

Module ConlluToken.

Record t := new { _text : str }.

Definition get_cleaned (self : t) : str :=
  fold_left
    (fun string symbol =>
       if isalnum symbol then string ++ [symbol] else string)
    (strip (lower (_text self))) [].

End ConlluToken.

(** *** ConlluSentence *)

Module ConlluSentence.

Record t := new {
  _position : Z;
  _text : str;
  _tokens : list ConlluToken.t
}.

Definition get_tokens (self : t) : list ConlluToken.t := _tokens self.

Definition get_conllu_text (self : t) (include_morphological_tags : bool)
  : str :=
  let no_punctuation_sentence :=
    fold_left
      (fun acc token =>
         if (0 <? length (strip (ConlluToken.get_cleaned token)))%nat
         then acc ++ [strip (ConlluToken.get_cleaned token)]
         else acc)
      (get_tokens self) [] in
  strip (join (u " ") no_punctuation_sentence).

Definition get_cleaned_sentence (self : t) : str :=
  let cleaned_sentence :=
    fold_left
      (fun acc token =>
         if (0 <? length (strip (ConlluToken.get_cleaned token)))%nat
         then acc ++ [strip (ConlluToken.get_cleaned token)]
         else acc)
      (get_tokens self) [] in
  strip (join (u " ") cleaned_sentence).

End ConlluSentence.

(** *** MorphologicalAnalysisPipeline *)

Module MorphologicalAnalysisPipeline.

Section Process.

(** [core_utils.article.article.split_by_sentence], the sentence-boundary
    collaborator, is a parameter of the model. *)
Variable split_by_sentence : str -> list str.

Definition _process (text : str) : error + list ConlluSentence.t :=
  let sentences := split_by_sentence text in
  Result.for_each sentences
    (fun sentence conllu_sentences =>
       let tokens :=
         List.map (fun word => ConlluToken.new (strip word))
           (split sentence) in
       match index sentence sentences with
       | Some i =>
         inr (conllu_sentences
                ++ [ConlluSentence.new (i + 1) sentence tokens])
       | None => inl ValueError
       end)
    [].

End Process.

End MorphologicalAnalysisPipeline.

End Pipeline.

(** ** lab_5_scrapper/scrapper.py *)

Module Scrapper.

(** *** Configuration *)

(** What [json.load] returns. *)
#[warnings="-register-all"]
Inductive json :=
| JNull
| JBool (b : bool)
| JInt (n : Z)
| JFloat (literal : str)
| JStr (s : str)
| JList (l : list json)
| JDict (d : list (str * json)).

(** [core_utils.config_dto.ConfigDTO]: the seven fields of the payload. *)
Record ConfigDTO := {
  seed_urls : json;
  total_articles : json;
  headers : json;
  encoding : json;
  timeout : json;
  should_verify_certificate : json;
  headless_mode : json
}.

(** [isinstance(v, int)] holds of booleans too: [bool] is a subclass of
    [int], with [True == 1] and [False == 0]. *)
Definition isinstance_int (v : json) : bool :=
  match v with JInt _ | JBool _ => true | _ => false end.
Definition isinstance_bool (v : json) : bool :=
  match v with JBool _ => true | _ => false end.
Definition isinstance_str (v : json) : bool :=
  match v with JStr _ => true | _ => false end.
Definition isinstance_list (v : json) : bool :=
  match v with JList _ => true | _ => false end.
Definition isinstance_dict (v : json) : bool :=
  match v with JDict _ => true | _ => false end.

(** The number an instance of [int] compares as. *)
Definition int_value (v : json) : Z :=
  match v with
  | JInt n => n
  | JBool b => Z.b2z b
  | _ => 0
  end.

(** [.*/] of the seed pattern: a slash after characters other than the
    line feed. *)
Fixpoint any_then_slash (s : str) : bool :=
  match s with
  | [] => false
  | c :: t => (c =? chr "/") || (negb (c =? 10) && any_then_slash t)
  end.

(** [s] with the prefix [p] removed, when it starts with it. *)
Fixpoint after_prefix (p s : str) : option str :=
  match p, s with
  | [], _ => Some s
  | a :: p', b :: s' => if a =? b then after_prefix p' s' else None
  | _ :: _, [] => None
  end.

Definition scheme_end_then_path (s : str) : bool :=
  match after_prefix (u "://") s with
  | Some rest => any_then_slash rest
  | None => false
  end.

(** [re.match(r'https?://.*/', url)] is not [None]. *)
Definition re_match_seed (url : str) : bool :=
  match after_prefix (u "http") url with
  | Some rest =>
    match rest with
    | 115 :: rest' => scheme_end_then_path rest' || scheme_end_then_path rest
    | _ => scheme_end_then_path rest
    end
  | None => false
  end.

Module Config.

(** A constructed [Config]: after validation the seed URLs are strings and
    the article count is an integer. *)
Record t := mk {
  _seed_urls : list str;
  _num_articles : Z;
  _headers : json;
  _encoding : json;
  _timeout : json;
  _should_verify_certificate : json;
  _headless_mode : json
}.

Section Constants.

(** [core_utils.constants]: the bounds are parameters of the model. *)
Variables NUM_ARTICLES_UPPER_LIMIT TIMEOUT_LOWER_LIMIT TIMEOUT_UPPER_LIMIT : Z.

Definition _validate_config_content (config_dto : ConfigDTO) : error + unit :=
  _ <- (if negb (isinstance_list (seed_urls config_dto))
        then inl IncorrectSeedURLError else inr tt) ;;
  _ <- Result.for_each
         (match seed_urls config_dto with JList l => l | _ => [] end)
         (fun url _ =>
            match url with
            | JStr s =>
              if negb (re_match_seed s) then inl IncorrectSeedURLError
              else inr tt
            | _ => inl IncorrectSeedURLError
            end) tt ;;
  _ <- (if negb (isinstance_int (total_articles config_dto))
           || isinstance_bool (total_articles config_dto)
           || (int_value (total_articles config_dto) <? 1)%Z
        then inl IncorrectNumberOfArticlesError else inr tt) ;;
  _ <- (if (int_value (total_articles config_dto)
            >? NUM_ARTICLES_UPPER_LIMIT)%Z
        then inl NumberOfArticlesOutOfRangeError else inr tt) ;;
  _ <- (if negb (isinstance_dict (headers config_dto))
        then inl IncorrectHeadersError else inr tt) ;;
  _ <- (if negb (isinstance_str (encoding config_dto))
        then inl IncorrectEncodingError else inr tt) ;;
  _ <- (if negb (isinstance_int (timeout config_dto))
           || (int_value (timeout config_dto) <? TIMEOUT_LOWER_LIMIT)%Z
           || (int_value (timeout config_dto) >? TIMEOUT_UPPER_LIMIT)%Z
        then inl IncorrectTimeoutError else inr tt) ;;
  if negb (isinstance_bool (should_verify_certificate config_dto))
     || negb (isinstance_bool (headless_mode config_dto))
  then inl IncorrectVerifyError else inr tt.

(** The strings of a list of strings. *)
Definition strings (v : json) : list str :=
  match v with
  | JList l =>
    omap (fun x => match x with JStr s => Some s | _ => None end) l
  | _ => []
  end.

(** [Config(path_to_config)], on the payload the file holds. *)
Definition init (config_dto : ConfigDTO) : error + t :=
  _ <- _validate_config_content config_dto ;;
  inr (mk (strings (seed_urls config_dto))
          (int_value (total_articles config_dto))
          (headers config_dto) (encoding config_dto) (timeout config_dto)
          (should_verify_certificate config_dto) (headless_mode config_dto)).

End Constants.

Definition get_seed_urls (self : t) : list str := _seed_urls self.
Definition get_num_articles (self : t) : Z := _num_articles self.

End Config.

(** *** Crawler *)

(** What [tag.get('href')] returns: nothing, a string, or a list for a
    multi-valued attribute. *)
Inductive attribute :=
| Absent
| Text (s : str)
| Multi (l : list str).

Record tag := { get_href : attribute }.

Module Crawler.

Record t := mk {
  urls : list str;
  _config : Config.t;
  _seed_urls : list str
}.

(** [Crawler(config)] *)
Definition new (config : Config.t) : t :=
  mk [] config (Config.get_seed_urls config).

Definition _extract_url (article_bs : tag) : str :=
  match get_href article_bs with
  | Text s => s
  | _ => u "url not found"
  end.

(** The inner loop of [find_articles] over the anchors of one page; the
    boolean tells whether [return] was reached. *)
Fixpoint visit_page (num_articles : Z) (paragraphs : list tag)
  (urls : list str) : bool * list str :=
  match paragraphs with
  | [] => (false, urls)
  | paragraph :: rest =>
    if (Z.of_nat (length urls) >=? num_articles)%Z then (true, urls)
    else
      let url := _extract_url paragraph in
      if eqb url [] || mem url urls || eqb url (u "url not found")
      then visit_page num_articles rest urls
      else visit_page num_articles rest
             (urls ++ [u "https://krsk.sibnovosti.ru" ++ url])
  end.

Section Fetch.

(** [make_request] followed by the parse and [find_all] of the anchors: the
    anchors of the page behind a seed URL, or the exception of the
    transport. *)
Variable fetch_anchors : str -> error + list tag.

(** The outer loop: the outcome of the call and [self.urls] afterwards. *)
Fixpoint visit_seeds (num_articles : Z) (seeds : list str) (urls : list str)
  : (error + unit) * list str :=
  match seeds with
  | [] => (inr tt, urls)
  | seed_url :: rest =>
    match fetch_anchors seed_url with
    | inl e => (inl e, urls)
    | inr paragraphs =>
      match visit_page num_articles paragraphs urls with
      | (true, urls') => (inr tt, urls')
      | (false, urls') => visit_seeds num_articles rest urls'
      end
    end
  end.

Definition find_articles (self : t) : (error + unit) * t :=
  let '(outcome, urls') :=
    visit_seeds (Config.get_num_articles (_config self)) (_seed_urls self)
      (urls self) in
  (outcome, mk urls' (_config self) (_seed_urls self)).

End Fetch.

End Crawler.

(** *** HTMLParser *)

(** The elements [find] looks up on an article page: the text of each, or
    [None] when [find] returns [None]; for the content container, the texts
    of its paragraphs. *)
Record soup := {
  article_detail : option (list str);
  title_div : option str;
  author_a : option str;
  active_a : option str;
  year_span : option str;
  hour_span : option str
}.

Module HTMLParser.

Definition months_collection : list (str * str) :=
  [ (u "января", u "01"); (u "февраля", u "02"); (u "марта", u "03");
    (u "апреля", u "04"); (u "мая", u "05"); (u "июня", u "06");
    (u "июля", u "07"); (u "августа", u "08"); (u "сентября", u "09");
    (u "октября", u "10"); (u "ноября", u "11"); (u "декабря", u "12") ].

(** [d[k]] when [k in d] *)
Fixpoint dict_get (k : str) (d : list (str * str)) : option str :=
  match d with
  | [] => None
  | (k', v) :: rest => if eqb k' k then Some v else dict_get k rest
  end.

Definition digits : list str :=
  [u "1"; u "2"; u "3"; u "4"; u "5"; u "6"; u "7"; u "8"; u "9"].

(** The three accumulators of the loop of [unify_date_format]. *)
Record parts := { month : str; day : str; time : str }.

(** One turn of the loop. *)
Definition classify (acc : parts) (element : str) : parts :=
  let acc :=
    if contains (chr ":") element
    then {| month := month acc; day := day acc; time := time acc ++ element |}
    else acc in
  let acc :=
    match dict_get element months_collection with
    | Some code =>
      {| month := month acc ++ code; day := day acc; time := time acc |}
    | None => acc
    end in
  let acc :=
    if isdigit element && mem element digits
    then {| month := month acc; day := day acc ++ u "0" ++ element;
            time := time acc |}
    else acc in
  if isdigit element && negb (mem element digits)
  then {| month := month acc; day := day acc ++ element; time := time acc |}
  else acc.

Definition collect (list_date : list str) : parts :=
  fold_left classify list_date {| month := []; day := []; time := [] |}.


Definition correct_date (date_str : str) : str :=
  let p := collect (split (lower date_str)) in
  u "2023" ++ u "-" ++ month p ++ u "-" ++ take 2 (day p) ++ u " " ++ time p.

Definition unify_date_format (date_str : str) : error + datetime.t :=
  datetime.strptime (correct_date date_str).

(** [s.replace(',', '')] *)
Definition remove_commas (s : str) : str :=
  List.filter (fun c => negb (c =? chr ",")) s.

Definition _fill_article_with_text (article_soup : soup) (article : Article.t)
  : (error + unit) * Article.t :=
  match article_detail article_soup with
  | None => (inl AttributeError, article)
  | Some paragraphs =>
    (inr tt, Article.set_text (join (u " ") (List.map strip paragraphs)) article)
  end.

(** The outcome of the call and [self.article] afterwards: the fields set
    before an exception keep their new values. *)
Definition _fill_article_with_meta_information (article_soup : soup)
  (article : Article.t) : (error + unit) * Article.t :=
  match title_div article_soup with
  | None => (inl AttributeError, article)
  | Some title_text =>
    let article := Article.set_title (strip title_text) article in
    match author_a article_soup with
    | None => (inl AttributeError, article)
    | Some author_text =>
      let article :=
        match author_text with
        | [] => Article.set_author [u "NOT FOUND"] article
        | _ => Article.set_author [author_text] article
        end in
      match active_a article_soup with
      | None => (inl AttributeError, article)
      | Some topic =>
        let article :=
          Article.set_topics (Article.topics article ++ [topic]) article in
        match year_span article_soup with
        | None => (inl AttributeError, article)
        | Some date =>
          match hour_span article_soup with
          | None => (inl AttributeError, article)
          | Some hour_text =>
            let hour := remove_commas hour_text in
            let date_str := hour ++ u " " ++ date in
            match unify_date_format date_str with
            | inl e => (inl e, article)
            | inr d => (inr tt, Article.set_date d article)
            end
          end
        end
      end
    end
  end.

(** An [HTMLParser] object. *)
Record t := mk {
  _full_url : str;
  _article_id : Z;
  _config : Config.t;
  article : Article.t
}.

(** [HTMLParser(full_url, article_id, config)] *)
Definition new (full_url : str) (article_id : Z) (config : Config.t) : t :=
  mk full_url article_id config (Article.new (Some full_url) article_id).

Section Parse.

(** [make_request] on the URL of an article and the parse of the response:
    the elements of the page, or the exception of the transport. *)
Variable fetch_article : str -> error + soup.

(** [parse]: the returned article or the exception, and the object
    afterwards. *)
Definition parse (self : t) : (error + Article.t) * t :=
  match fetch_article (_full_url self) with
  | inl e => (inl e, self)
  | inr article_bs =>
    match _fill_article_with_text article_bs (article self) with
    | (inl e, a) =>
      (inl e, mk (_full_url self) (_article_id self) (_config self) a)
    | (inr _, a) =>
      match _fill_article_with_meta_information article_bs a with
      | (inl e, a') =>
        (inl e, mk (_full_url self) (_article_id self) (_config self) a')
      | (inr _, a') =>
        (inr a', mk (_full_url self) (_article_id self) (_config self) a')
      end
    end
  end.

End Parse.

End HTMLParser.

(** [prepare_environment(base_path)]: an existing directory is removed with
    all it holds and made anew; [shutil.rmtree] refuses a path that is not
    a directory. *)
Definition prepare_environment (base_path : Pipeline.path)
  : error + Pipeline.path :=
  match base_path with
  | Pipeline.Missing => inr (Pipeline.Directory [])
  | Pipeline.NotDirectory => inl NotADirectoryError
  | Pipeline.Directory _ => inr (Pipeline.Directory [])
  end.

Section Main.

Variables NUM_ARTICLES_UPPER_LIMIT TIMEOUT_LOWER_LIMIT TIMEOUT_UPPER_LIMIT : Z.
Variable fetch_anchors : str -> error + list tag.
Variable fetch_article : str -> error + soup.

(** The loop of [main] over [enumerate(crawler.urls, start=1)], from the
    number [id_] on: [saved] lists the articles handed to [to_raw] and
    [to_meta] so far. *)
Fixpoint save_articles (configuration : Config.t) (id_ : Z) (urls : list str)
  (saved : list Article.t) : (error + unit) * list Article.t :=
  match urls with
  | [] => (inr tt, saved)
  | url :: rest =>
    let parser := HTMLParser.new url id_ configuration in
    match fst (HTMLParser.parse fetch_article parser) with
    | inl e => (inl e, saved)
    | inr article =>
      save_articles configuration (id_ + 1) rest (saved ++ [article])
    end
  end.

(** [main], on the payload of the configuration file and the state of
    [ASSETS_PATH]: how the call ends and the articles it saved. *)
Definition main (config_dto : ConfigDTO) (assets : Pipeline.path)
  : (error + unit) * list Article.t :=
  match Config.init NUM_ARTICLES_UPPER_LIMIT TIMEOUT_LOWER_LIMIT
          TIMEOUT_UPPER_LIMIT config_dto with
  | inl e => (inl e, [])
  | inr configuration =>
    match prepare_environment assets with
    | inl e => (inl e, [])
    | inr _ =>
      match Crawler.find_articles fetch_anchors (Crawler.new configuration) with
      | (inl e, _) => (inl e, [])
      | (inr _, crawler) =>
        save_articles configuration 1 (Crawler.urls crawler) []
      end
    end
  end.

End Main.

End Scrapper.

(** * Properties *)

Import Pipeline Scrapper.

(** ** Vocabulary of the properties *)

(** A string whose first and last characters are not white space. *)
Definition trimmed (s : str) : Prop :=
  lstrip s = s /\ lstrip (rev s) = rev s.

(** Words: non-empty and alphanumeric throughout. *)
Definition word (w : str) : Prop :=
  w <> [] /\ Forall (fun c => isalnum c = true) w.

(** The non-empty cleaned forms of the tokens of a sentence, in order: what
    the specification joins with spaces. *)
Definition cleaned_forms (tokens : list ConlluToken.t) : list str :=
  List.filter (fun w => negb (eqb w []))
    (List.map ConlluToken.get_cleaned tokens).

(** The position [_process] gives a sentence: one more than the index of
    its first occurrence. *)
Definition position_of (sentences : list str) (sentence : str) : Z :=
  default 0%Z (index sentence sentences) + 1.

(** The body of the loop of [_process]. *)
Definition process_step (sentences : list str) (sentence : str)
  (conllu_sentences : list ConlluSentence.t) : error + list ConlluSentence.t :=
  let tokens :=
    List.map (fun word => ConlluToken.new (strip word)) (split sentence) in
  match index sentence sentences with
  | Some i =>
    inr (conllu_sentences ++ [ConlluSentence.new (i + 1) sentence tokens])
  | None => inl ValueError
  end.

(** What each check asks of its field. *)
Definition seed_url_ok (url : json) : bool :=
  match url with JStr s => re_match_seed s | _ => false end.

Definition seed_urls_ok (dto : ConfigDTO) : bool :=
  match seed_urls dto with JList l => forallb seed_url_ok l | _ => false end.

(** An integer that is not a boolean and is at least 1. *)
Definition count_wellformed (dto : ConfigDTO) : bool :=
  match total_articles dto with JInt n => (1 <=? n)%Z | _ => false end.

Definition count_in_range (NUM_ARTICLES_UPPER_LIMIT : Z) (dto : ConfigDTO)
  : bool :=
  (int_value (total_articles dto) <=? NUM_ARTICLES_UPPER_LIMIT)%Z.

Definition headers_ok (dto : ConfigDTO) : bool :=
  match headers dto with JDict _ => true | _ => false end.

Definition encoding_ok (dto : ConfigDTO) : bool :=
  match encoding dto with JStr _ => true | _ => false end.

(** An instance of [int], booleans included, within the bounds. *)
Definition timeout_ok (TIMEOUT_LOWER_LIMIT TIMEOUT_UPPER_LIMIT : Z)
  (dto : ConfigDTO) : bool :=
  isinstance_int (timeout dto)
  && (TIMEOUT_LOWER_LIMIT <=? int_value (timeout dto))%Z
  && (int_value (timeout dto) <=? TIMEOUT_UPPER_LIMIT)%Z.

Definition flags_ok (dto : ConfigDTO) : bool :=
  match should_verify_certificate dto, headless_mode dto with
  | JBool _, JBool _ => true
  | _, _ => false
  end.

(** A valid payload, with the bounds 150, 0 and 60 of the course. *)
Definition payload (count : json) : ConfigDTO :=
  {| seed_urls := JList [JStr (u "https://krsk.sibnovosti.ru/news/")];
     total_articles := count;
     headers := JDict [];
     encoding := JStr (u "utf-8");
     timeout := JInt 5;
     should_verify_certificate := JBool true;
     headless_mode := JBool false |}.

Definition anchor (h : string) : tag := {| get_href := Text (u h) |}.

(** The configuration built from [payload (JInt count)]. *)
Definition course_config (count : Z) : Config.t :=
  Config.mk [u "https://krsk.sibnovosti.ru/news/"] count (JDict [])
    (JStr (u "utf-8")) (JInt 5) (JBool true) (JBool false).

(** An article page with every element present. *)
Definition page_with_byline (byline : str) : soup :=
  {| article_detail := Some [u "Текст."];
     title_div := Some (u " Заголовок ");
     author_a := Some byline;
     active_a := Some (u "Общество");
     year_span := Some (u "5 марта");
     hour_span := Some (u "14:30,") |}.

(** The strings a regular expression denotes. *)
Fixpoint matches (r : Re.regex) (w : str) : Prop :=
  match r with
  | Re.Class p => exists c, w = [c] /\ p c = true
  | Re.Cat a b => exists w1 w2, w = w1 ++ w2 /\ matches a w1 /\ matches b w2
  | Re.Alt a b => matches a w \/ matches b w
  | Re.Plus p => w <> [] /\ Forall (fun c => p c = true) w
  end.

(** What one token adds to each accumulator. *)
Definition month_part (element : str) : str :=
  default [] (HTMLParser.dict_get element HTMLParser.months_collection).
Definition time_part (element : str) : str :=
  if contains (chr ":") element then element else [].
Definition day_part (element : str) : str :=
  if isdigit element
  then if mem element HTMLParser.digits then u "0" ++ element else element
  else [].


(** The ids parsed from the names of the raw files. *)
Definition parsed_ids (raw_files : list file) : error + list Z :=
  Result.comprehension (fun file => id_of_name (file_name file)) raw_files.


(** A raw file of the given name and size. *)
Definition raw (name : string) (size : N) : file :=
  {| file_name := u name; st_size := size; file_text := u "Текст." |}.


(** ** Vocabulary of the further properties *)

(** The prefix [find_articles] puts before every link. *)
Definition site_prefix : str := u "https://krsk.sibnovosti.ru".

(** A link [find_articles] does not skip for being empty or unresolved. *)
Definition acceptable (url : str) : bool :=
  negb (eqb url [] || eqb url (u "url not found")).

(** What [_extract_url] yields on the anchors of the pages, in order. *)
Definition discovered (pages : list (list tag)) : list str :=
  List.concat (List.map (List.map Crawler._extract_url) pages).

(** The shape of a URL that [find_articles] has added. *)
Definition resolved (url : str) : Prop :=
  exists href, url = site_prefix ++ href /\ href <> []
               /\ href <> u "url not found".

(** A listing page and an article page for the examples. *)
Definition listing (_ : str) : error + list tag :=
  inr [anchor "/news/1"; anchor "/news/2"].

Definition article_page (full_url : str) : error + soup :=
  if eqb full_url (u "https://krsk.sibnovosti.ru/news/2")
  then inr (page_with_byline (u "Иван Петров"))
  else inl RequestException.



(** ** Strings *)

Section StringFacts.

Lemma between_spec lo hi c : between lo hi c = true <-> lo <= c <= hi.
Proof.
  unfold between. rewrite andb_true_iff, !N.leb_le. tauto.
Qed.

Lemma alnum_not_space c : isalnum c = true -> isspace c = false.
Proof.
  intros H. apply not_true_is_false. intros Hs.
  unfold isalnum, isspace in *.
  rewrite !orb_true_iff, !between_spec in H.
  rewrite !orb_true_iff, !between_spec, !N.eqb_eq in Hs. lia.
Qed.

Lemma isalnum_lower c : isalnum (lower_char c) = isalnum c.
Proof.
  unfold lower_char.
  destruct (between 65 90 c) eqn:H1; [|destruct (between 1040 1071 c) eqn:H2;
    [|destruct (between 1024 1039 c) eqn:H3]]; try reflexivity;
  match goal with H : between _ _ _ = true |- _ => apply between_spec in H end;
  unfold isalnum;
  repeat match goal with
         | |- context [between ?a ?b ?x] =>
           let E := fresh in
           destruct (between a b x) eqn:E;
           [apply between_spec in E
           |apply not_true_iff_false in E; rewrite between_spec in E]
         end; simpl; try reflexivity; lia.
Qed.

Lemma fold_append_filter (p : N -> bool) (l acc : str) :
  fold_left (fun string symbol => if p symbol then string ++ [symbol] else string)
    l acc = acc ++ List.filter p l.
Proof.
  revert acc. induction l as [|c l IH]; intros acc; simpl.
  - now rewrite app_nil_r.
  - rewrite IH. destruct (p c); [|reflexivity].
    now rewrite <- app_assoc.
Qed.

Lemma filter_rev_comm {A} (p : A -> bool) (l : list A) :
  List.filter p (rev l) = rev (List.filter p l).
Proof.
  induction l as [|x l IH]; [reflexivity|]. simpl.
  rewrite List.filter_app, IH. simpl.
  destruct (p x); simpl; [reflexivity|now rewrite app_nil_r].
Qed.

Lemma lstrip_filter_alnum s :
  List.filter isalnum (lstrip s) = List.filter isalnum s.
Proof.
  induction s as [|c s IH]; [reflexivity|]. simpl.
  destruct (isspace c) eqn:Hs; [|reflexivity].
  destruct (isalnum c) eqn:Ha; [|exact IH].
  apply alnum_not_space in Ha. congruence.
Qed.

Lemma strip_filter_alnum s :
  List.filter isalnum (strip s) = List.filter isalnum s.
Proof.
  unfold strip, rstrip.
  rewrite filter_rev_comm, lstrip_filter_alnum, filter_rev_comm.
  now rewrite rev_involutive, lstrip_filter_alnum.
Qed.

Lemma strip_trimmed s : trimmed s -> strip s = s.
Proof.
  intros [H1 H2]. unfold strip, rstrip.
  now rewrite H1, H2, rev_involutive.
Qed.

Lemma lstrip_alnum_head c s : isalnum c = true -> lstrip (c :: s) = c :: s.
Proof. intros H. simpl. now rewrite (alnum_not_space _ H). Qed.

Lemma trimmed_alnum s : Forall (fun c => isalnum c = true) s -> trimmed s.
Proof.
  intros H. split.
  - destruct H; [reflexivity|now apply lstrip_alnum_head].
  - apply Forall_rev in H. destruct H; [reflexivity|now apply lstrip_alnum_head].
Qed.

Lemma filter_all_alnum s : Forall (fun c => isalnum c = true) (List.filter isalnum s).
Proof.
  induction s as [|c s IH]; simpl; [constructor|].
  destruct (isalnum c) eqn:E; [constructor|]; assumption.
Qed.

Lemma join_words_head sep w ws :
  word w -> exists c t, join sep (w :: ws) = c :: t /\ isalnum c = true.
Proof.
  intros [Hne Hw]. destruct w as [|c w]; [congruence|].
  inversion Hw; subst.
  destruct ws; simpl; eauto.
Qed.

Lemma join_snoc sep ws w :
  exists pre, join sep (ws ++ [w]) = pre ++ w.
Proof.
  induction ws as [|x ws [pre IH]]; simpl.
  - now exists [].
  - destruct (ws ++ [w]) eqn:E.
    + destruct ws; discriminate.
    + rewrite IH. exists (x ++ sep ++ pre). now rewrite <- !app_assoc.
Qed.

Lemma trimmed_join_words sep ws : Forall word ws -> trimmed (join sep ws).
Proof.
  intros H. split.
  - destruct H as [|w ws Hw _]; [reflexivity|].
    destruct (join_words_head sep w ws Hw) as (c & t & -> & Hc).
    now apply lstrip_alnum_head.
  - induction ws as [|w ws' _] using rev_ind; [reflexivity|].
    apply Forall_app in H as [_ Hw]. inversion Hw as [|? ? [Hne Hall] _]; subst.
    destruct (join_snoc sep ws' w) as [pre ->].
    rewrite rev_app_distr.
    apply Forall_rev in Hall.
    destruct (rev w) as [|c r] eqn:E.
    + apply (f_equal (@rev N)) in E. rewrite rev_involutive in E. simpl in E. congruence.
    + inversion Hall; subst. simpl. now rewrite alnum_not_space.
Qed.

End StringFacts.

(** ** Cleaned tokens and sentences *)

Section Cleaning.

Lemma get_cleaned_filter token :
  ConlluToken.get_cleaned token
  = List.filter isalnum (lower (ConlluToken._text token)).
Proof.
  unfold ConlluToken.get_cleaned.
  now rewrite fold_append_filter, strip_filter_alnum.
Qed.

Lemma get_cleaned_alnum token :
  Forall (fun c => isalnum c = true) (ConlluToken.get_cleaned token).
Proof. rewrite get_cleaned_filter. apply filter_all_alnum. Qed.

Lemma strip_get_cleaned token :
  strip (ConlluToken.get_cleaned token) = ConlluToken.get_cleaned token.
Proof. apply strip_trimmed, trimmed_alnum, get_cleaned_alnum. Qed.

Lemma collect_cleaned tokens acc :
  fold_left
    (fun acc token =>
       if (0 <? length (strip (ConlluToken.get_cleaned token)))%nat
       then acc ++ [strip (ConlluToken.get_cleaned token)]
       else acc)
    tokens acc
  = acc ++ cleaned_forms tokens.
Proof.
  revert acc. induction tokens as [|token tokens IH]; intros acc; simpl.
  - now rewrite app_nil_r.
  - rewrite IH, strip_get_cleaned. unfold cleaned_forms. simpl.
    destruct (ConlluToken.get_cleaned token) as [|c w]; simpl; [reflexivity|].
    now rewrite <- app_assoc.
Qed.

Lemma cleaned_forms_words tokens : Forall word (cleaned_forms tokens).
Proof.
  unfold cleaned_forms.
  induction tokens as [|token tokens IH]; simpl; [constructor|].
  destruct (ConlluToken.get_cleaned token) as [|c w] eqn:E; simpl; [exact IH|].
  constructor; [|exact IH]. split; [discriminate|].
  rewrite <- E. apply get_cleaned_alnum.
Qed.

Lemma get_cleaned_sentence_join sentence :
  ConlluSentence.get_cleaned_sentence sentence
  = join (u " ") (cleaned_forms (ConlluSentence.get_tokens sentence)).
Proof.
  unfold ConlluSentence.get_cleaned_sentence.
  rewrite collect_cleaned. simpl.
  apply strip_trimmed, trimmed_join_words, cleaned_forms_words.
Qed.





(** C10: with either value of the flag, the CONLL-U text of a sentence is
    its cleaned sentence, the space-joined cleaned forms of its tokens and
    nothing else. *)
Theorem conllu_text_is_cleaned_sentence :
  forall sentence include_morphological_tags,
    ConlluSentence.get_conllu_text sentence include_morphological_tags
    = ConlluSentence.get_cleaned_sentence sentence
    /\ ConlluSentence.get_conllu_text sentence include_morphological_tags
       = join (u " ") (cleaned_forms (ConlluSentence.get_tokens sentence)).
Proof.
  intros sentence flag.
  assert (H : ConlluSentence.get_conllu_text sentence flag
              = ConlluSentence.get_cleaned_sentence sentence) by reflexivity.
  split; [exact H|]. rewrite H. apply get_cleaned_sentence_join.
Qed.

End Cleaning.

(** ** Sentence positions *)

Section Positions.

Variable split_by_sentence : str -> list str.

Abbreviation _process :=
  (MorphologicalAnalysisPipeline._process split_by_sentence).

Lemma eqb_refl (s : str) : eqb s s = true.
Proof. unfold eqb. now apply bool_decide_eq_true. Qed.

Lemma eqb_neq (a b : str) : a <> b -> eqb a b = false.
Proof. intros H. unfold eqb. now apply bool_decide_eq_false. Qed.

Lemma index_elem x l : x ∈ l -> is_Some (index x l).
Proof.
  induction 1 as [x l|x y l _ IH]; simpl.
  - rewrite eqb_refl. eauto.
  - destruct (eqb y x); [eauto|]. destruct IH as [i ->]. eauto.
Qed.

Lemma process_loop sentences todo acc :
  (forall s, s ∈ todo -> s ∈ sentences) ->
  exists l,
    Result.for_each todo (process_step sentences) acc = inr (acc ++ l)
    /\ List.map ConlluSentence._position l
       = List.map (position_of sentences) todo
    /\ List.map ConlluSentence._text l = todo.
Proof.
  revert acc. induction todo as [|s todo IH]; intros acc Hin.
  - exists []. now rewrite app_nil_r.
  - destruct (index_elem s sentences) as [i Hi]; [apply Hin; left|].
    cbn [Result.for_each]. unfold process_step at 1. rewrite Hi.
    cbn [Result.bind].
    match goal with
    | |- context [Result.for_each todo _ (acc ++ [?c])] =>
      destruct (IH (acc ++ [c])) as (l & -> & Hp & Ht);
        [intros; apply Hin; now right|];
      exists (c :: l)
    end.
    rewrite <- app_assoc. split; [reflexivity|].
    cbn [List.map ConlluSentence._position ConlluSentence._text].
    rewrite Hp, Ht. split; [|reflexivity]. f_equal.
    unfold position_of. now rewrite Hi.
Qed.

(** [_process] always returns, one sentence structure per sentence, each
    positioned by the first occurrence of its text. *)
Lemma process_positions text :
  exists l,
    _process text = inr l
    /\ List.map ConlluSentence._position l
       = List.map (position_of (split_by_sentence text))
           (split_by_sentence text)
    /\ List.map ConlluSentence._text l = split_by_sentence text.
Proof.
  change (_process text)
    with (Result.for_each (split_by_sentence text)
            (process_step (split_by_sentence text)) []).
  destruct (process_loop (split_by_sentence text) (split_by_sentence text) [])
    as (l & H & Hp & Ht); [auto|].
  exists l. now rewrite H.
Qed.

Lemma index_first pre x post :
  x ∉ pre -> index x (pre ++ x :: post) = Some (Z.of_nat (length pre)).
Proof.
  induction pre as [|y pre IH]; intros Hx; simpl.
  - now rewrite eqb_refl.
  - rewrite eqb_neq by (intros ->; apply Hx; left).
    rewrite IH by (intros ?; apply Hx; now right).
    f_equal. lia.
Qed.

Lemma positions_distinct pre todo :
  NoDup (pre ++ todo) ->
  List.map (position_of (pre ++ todo)) todo
  = seqZ (Z.of_nat (length pre) + 1) (Z.of_nat (length todo)).
Proof.
  revert pre. induction todo as [|x todo IH]; intros pre Hnd; [reflexivity|].
  cbn [List.map length]. rewrite Nat2Z.inj_succ, seqZ_cons by lia. f_equal.
  - unfold position_of. rewrite index_first; [reflexivity|].
    apply NoDup_app in Hnd as (_ & Hd & _). intros Hx.
    apply (Hd x Hx). left.
  - replace (pre ++ x :: todo) with ((pre ++ [x]) ++ todo) in *
      by now rewrite <- app_assoc.
    rewrite IH by assumption. rewrite length_app. simpl.
    f_equal; lia.
Qed.

(** When no sentence text occurs twice, the positions are 1, 2, ..., K. *)
Lemma process_positions_distinct text :
  NoDup (split_by_sentence text) ->
  exists l,
    _process text = inr l
    /\ List.map ConlluSentence._position l
       = seqZ 1 (Z.of_nat (length (split_by_sentence text))).
Proof.
  intros Hnd. destruct (process_positions text) as (l & H & Hp & _).
  exists l. split; [exact H|].
  rewrite Hp. now apply (positions_distinct []).
Qed.

(** C6 (the code departs from it): when the segmenter returns the same
    sentence text twice, [_process] gives both sentences position 1, where
    sequential numbering asks for 1 and 2. *)
Theorem process_repeated_sentence_positions text s :
  split_by_sentence text = [s; s] ->
  exists first second,
    _process text = inr [first; second]
    /\ ConlluSentence._position first = 1%Z
    /\ ConlluSentence._position second = 1%Z.
Proof.
  intros H. unfold MorphologicalAnalysisPipeline._process. rewrite H. simpl.
  rewrite eqb_refl. simpl. eauto.
Qed.

End Positions.

(** The text "Да. Да." cut into its two equal sentences. *)
Lemma process_repeated_sentence_positions_witness :
  exists first second,
    MorphologicalAnalysisPipeline._process (fun _ => [u "Да."; u "Да."])
      (u "Да. Да.")
    = inr [first; second]
    /\ ConlluSentence._position first = 1%Z
    /\ ConlluSentence._position second = 1%Z.
Proof.
  apply (process_repeated_sentence_positions
           (fun _ => [u "Да."; u "Да."]) (u "Да. Да.") (u "Да.")).
  reflexivity.
Defined.

(** ** The author of an article *)

Section Author.

Lemma author_set_topics v a :
  Article.author (Article.set_topics v a) = Article.author a.
Proof. reflexivity. Qed.

(** C7, amended: once the title and byline elements are found, the author
    field is the list ["NOT FOUND"] when the text of the byline is empty,
    and otherwise the one-element list of that text exactly as found, not
    trimmed; it is never the empty list. *)
Theorem author_sentinel_or_text article_soup article title_text author_text :
  title_div article_soup = Some title_text ->
  author_a article_soup = Some author_text ->
  let article' :=
    snd (HTMLParser._fill_article_with_meta_information article_soup article) in
  Article.author article'
  = (match author_text with
     | [] => [u "NOT FOUND"]
     | _ => [author_text]
     end)
  /\ Article.author article' <> [].
Proof.
  intros Ht Ha. unfold HTMLParser._fill_article_with_meta_information.
  rewrite Ht, Ha.
  assert (Hgoal : forall a : Article.t,
            Article.author a
            = (match author_text with [] => [u "NOT FOUND"] | _ => [author_text] end)
            -> Article.author a
               = (match author_text with [] => [u "NOT FOUND"] | _ => [author_text] end)
               /\ Article.author a <> []).
  { intros a E. split; [exact E|]. rewrite E. destruct author_text; discriminate. }
  destruct (active_a article_soup); [|apply Hgoal; now destruct author_text].
  destruct (year_span article_soup); [|apply Hgoal; now destruct author_text].
  destruct (hour_span article_soup); [|apply Hgoal; now destruct author_text].
  destruct (HTMLParser.unify_date_format _);
    apply Hgoal; now destruct author_text.
Qed.

Lemma author_sentinel_or_text_witness :
  let article' :=
    snd (HTMLParser._fill_article_with_meta_information
           (page_with_byline []) (Article.new None 1)) in
  Article.author article' = [u "NOT FOUND"] /\ Article.author article' <> [].
Proof.
  apply (author_sentinel_or_text (page_with_byline []) (Article.new None 1)
           (u " Заголовок ") []); reflexivity.
Defined.

(** C7 as stated fails: a byline with surrounding blanks is stored with
    them, while the title next to it is trimmed. *)
Lemma author_kept_untrimmed :
  let byline := u " Иван Петров " in
  let result :=
    HTMLParser._fill_article_with_meta_information
      (page_with_byline byline) (Article.new None 1) in
  fst result = inr tt
  /\ byline <> []
  /\ Article.author (snd result) = [byline]
  /\ Article.author (snd result) <> [strip byline]
  /\ Article.title (snd result) = u "Заголовок".
Proof.
  vm_compute. repeat split; discriminate.
Qed.

End Author.

(** ** Configuration checks *)

Section Validation.

Variables NUM_ARTICLES_UPPER_LIMIT TIMEOUT_LOWER_LIMIT TIMEOUT_UPPER_LIMIT : Z.

Abbreviation validate :=
  (Config._validate_config_content
     NUM_ARTICLES_UPPER_LIMIT TIMEOUT_LOWER_LIMIT TIMEOUT_UPPER_LIMIT).

Lemma seed_loop l :
  Result.for_each l
    (fun url _ =>
       match url with
       | JStr s =>
         if negb (re_match_seed s) then inl IncorrectSeedURLError else inr tt
       | _ => inl IncorrectSeedURLError
       end) tt
  = if forallb seed_url_ok l then inr tt else inl IncorrectSeedURLError.
Proof.
  induction l as [|url l IH]; [reflexivity|]. cbn [Result.for_each forallb].
  destruct url; try reflexivity. cbn [seed_url_ok].
  destruct (re_match_seed s); [exact IH|reflexivity].
Qed.

(** The checks as a cascade: the first field that fails decides. *)
Lemma validate_cascade dto :
  validate dto =
  if negb (seed_urls_ok dto) then inl IncorrectSeedURLError
  else if negb (count_wellformed dto) then inl IncorrectNumberOfArticlesError
  else if negb (count_in_range NUM_ARTICLES_UPPER_LIMIT dto) then inl NumberOfArticlesOutOfRangeError
  else if negb (headers_ok dto) then inl IncorrectHeadersError
  else if negb (encoding_ok dto) then inl IncorrectEncodingError
  else if negb (timeout_ok TIMEOUT_LOWER_LIMIT TIMEOUT_UPPER_LIMIT dto) then inl IncorrectTimeoutError
  else if negb (flags_ok dto) then inl IncorrectVerifyError
  else inr tt.
Proof.
  unfold Config._validate_config_content, seed_urls_ok, count_wellformed,
    count_in_range, headers_ok, encoding_ok, timeout_ok, flags_ok.
  rewrite seed_loop.
  destruct (seed_urls dto) as [| | | | |l|]; try reflexivity.
  cbn [isinstance_list negb Result.bind].
  destruct (forallb seed_url_ok l); [|reflexivity]. cbn [negb Result.bind].
  destruct (total_articles dto) as [| |n| | | |]; try reflexivity.
  cbn [isinstance_int isinstance_bool int_value negb orb].
  rewrite (Z.ltb_antisym 1 n), Z.gtb_ltb, (Z.ltb_antisym n).
  destruct (1 <=? n)%Z; [|reflexivity]. cbn [negb Result.bind].
  destruct (n <=? NUM_ARTICLES_UPPER_LIMIT)%Z; [|reflexivity].
  cbn [negb Result.bind].
  destruct (headers dto); try reflexivity.
  destruct (encoding dto); try reflexivity.
  cbn [isinstance_dict isinstance_str negb Result.bind].
  rewrite Z.gtb_ltb, !Z.ltb_antisym.
  destruct (isinstance_int (timeout dto)); [|reflexivity].
  destruct (TIMEOUT_LOWER_LIMIT <=? int_value (timeout dto))%Z; [|reflexivity].
  destruct (int_value (timeout dto) <=? TIMEOUT_UPPER_LIMIT)%Z; [|reflexivity].
  cbn [negb orb andb Result.bind].
  destruct (should_verify_certificate dto); try reflexivity;
    destruct (headless_mode dto); reflexivity.
Qed.

(** C3: the checks run in the order seed URLs, article count, upper limit
    of the count, headers, encoding, timeout, flags, and the first field
    that fails decides the error, whatever the later fields hold; a count
    that is not an integer, is a boolean or is below 1 is malformed, while
    an integer count of at least 1 above the limit is out of range. *)
Theorem validation_fails_fast_in_order dto :
  (seed_urls_ok dto = false -> validate dto = inl IncorrectSeedURLError)
  /\ (seed_urls_ok dto = true -> count_wellformed dto = false ->
      validate dto = inl IncorrectNumberOfArticlesError)
  /\ (seed_urls_ok dto = true ->
      (forall n, total_articles dto <> JInt n) ->
      validate dto = inl IncorrectNumberOfArticlesError)
  /\ (seed_urls_ok dto = true ->
      (forall n, total_articles dto = JInt n -> (n < 1)%Z) ->
      validate dto = inl IncorrectNumberOfArticlesError)
  /\ (seed_urls_ok dto = true ->
      forall n, total_articles dto = JInt n -> (1 <= n)%Z ->
      (n > NUM_ARTICLES_UPPER_LIMIT)%Z ->
      validate dto = inl NumberOfArticlesOutOfRangeError)
  /\ (seed_urls_ok dto = true -> count_wellformed dto = true ->
      count_in_range NUM_ARTICLES_UPPER_LIMIT dto = true -> headers_ok dto = false ->
      validate dto = inl IncorrectHeadersError)
  /\ (seed_urls_ok dto = true -> count_wellformed dto = true ->
      count_in_range NUM_ARTICLES_UPPER_LIMIT dto = true -> headers_ok dto = true ->
      encoding_ok dto = false ->
      validate dto = inl IncorrectEncodingError)
  /\ (seed_urls_ok dto = true -> count_wellformed dto = true ->
      count_in_range NUM_ARTICLES_UPPER_LIMIT dto = true -> headers_ok dto = true ->
      encoding_ok dto = true -> timeout_ok TIMEOUT_LOWER_LIMIT TIMEOUT_UPPER_LIMIT dto = false ->
      validate dto = inl IncorrectTimeoutError)
  /\ (seed_urls_ok dto = true -> count_wellformed dto = true ->
      count_in_range NUM_ARTICLES_UPPER_LIMIT dto = true -> headers_ok dto = true ->
      encoding_ok dto = true -> timeout_ok TIMEOUT_LOWER_LIMIT TIMEOUT_UPPER_LIMIT dto = true ->
      flags_ok dto = false ->
      validate dto = inl IncorrectVerifyError)
  /\ (seed_urls_ok dto = true -> count_wellformed dto = true ->
      count_in_range NUM_ARTICLES_UPPER_LIMIT dto = true -> headers_ok dto = true ->
      encoding_ok dto = true -> timeout_ok TIMEOUT_LOWER_LIMIT TIMEOUT_UPPER_LIMIT dto = true ->
      flags_ok dto = true ->
      validate dto = inr tt).
Proof.
  rewrite validate_cascade.
  repeat split; intros;
    repeat match goal with
           | H : _ = true |- _ => rewrite H; clear H
           | H : _ = false |- _ => rewrite H; clear H
           end; try reflexivity.
  - (* not an integer, or a boolean *)
    replace (count_wellformed dto) with false; [reflexivity|].
    unfold count_wellformed. destruct (total_articles dto); try reflexivity.
    now exfalso; eapply H0.
  - (* below 1 *)
    replace (count_wellformed dto) with false; [reflexivity|].
    unfold count_wellformed. destruct (total_articles dto); try reflexivity.
    symmetry. apply Z.leb_gt. now apply H0.
  - (* above the limit *)
    unfold count_wellformed, count_in_range. rewrite H0. cbn [int_value].
    rewrite (proj2 (Z.leb_le 1 n)) by assumption.
    rewrite (proj2 (Z.leb_gt n NUM_ARTICLES_UPPER_LIMIT)) by lia.
    reflexivity.
Qed.

Lemma validated_count dto :
  validate dto = inr tt ->
  exists n, total_articles dto = JInt n
            /\ (1 <= n <= NUM_ARTICLES_UPPER_LIMIT)%Z.
Proof.
  rewrite validate_cascade. unfold count_wellformed, count_in_range.
  destruct (seed_urls_ok dto); [|discriminate]. cbn [negb].
  destruct (total_articles dto) as [| |n| | | |]; try discriminate.
  cbn [int_value].
  destruct (1 <=? n)%Z eqn:H1; [|discriminate].
  destruct (n <=? NUM_ARTICLES_UPPER_LIMIT)%Z eqn:H2; [|discriminate].
  intros _. exists n. apply Z.leb_le in H1, H2. auto.
Qed.

End Validation.

Lemma validation_fails_fast_in_order_witness :
  Config._validate_config_content 150 0 60 (payload (JBool true))
  = inl IncorrectNumberOfArticlesError
  /\ Config._validate_config_content 150 0 60 (payload (JInt 0))
     = inl IncorrectNumberOfArticlesError
  /\ Config._validate_config_content 150 0 60 (payload (JInt 151))
     = inl NumberOfArticlesOutOfRangeError
  /\ Config._validate_config_content 150 0 60 (payload (JInt 150)) = inr tt.
Proof.
  split; [|split; [|split]].
  - apply (proj1 (proj2 (proj2
             (validation_fails_fast_in_order 150 0 60 (payload (JBool true))))));
      [reflexivity|discriminate].
  - apply (proj1 (proj2 (proj2 (proj2
             (validation_fails_fast_in_order 150 0 60 (payload (JInt 0)))))));
      [reflexivity|]. intros n [= <-]. lia.
  - apply (proj1 (proj2 (proj2 (proj2 (proj2
             (validation_fails_fast_in_order 150 0 60 (payload (JInt 151))))))))
      with (n := 151%Z); [reflexivity|reflexivity|lia|lia].
  - apply (proj2 (proj2 (proj2 (proj2 (proj2 (proj2 (proj2 (proj2 (proj2
             (validation_fails_fast_in_order 150 0 60 (payload (JInt 150))))))))))));
      reflexivity.
Defined.

(** ** Link discovery *)

Section Discovery.

Variable fetch_anchors : str -> error + list tag.


Lemma visit_page_bound num_articles paragraphs urls :
  (Z.of_nat (length urls) <= num_articles)%Z ->
  (Z.of_nat (length (snd (Crawler.visit_page num_articles paragraphs urls)))
   <= num_articles)%Z.
Proof.
  revert urls. induction paragraphs as [|p rest IH]; intros urls H;
    [exact H|].
  cbn [Crawler.visit_page].
  destruct (Z.of_nat (length urls) >=? num_articles)%Z eqn:E; [exact H|].
  destruct (eqb (Crawler._extract_url p) [] || mem (Crawler._extract_url p) urls
            || eqb (Crawler._extract_url p) (u "url not found"));
    apply IH; [exact H|].
  rewrite length_app. simpl.
  rewrite Z.geb_leb in E. apply Z.leb_gt in E. lia.
Qed.


Lemma visit_seeds_bound num_articles seeds urls :
  (Z.of_nat (length urls) <= num_articles)%Z ->
  (Z.of_nat
     (length (snd (Crawler.visit_seeds fetch_anchors num_articles seeds urls)))
   <= num_articles)%Z.
Proof.
  revert urls. induction seeds as [|seed rest IH]; intros urls H; [exact H|].
  cbn [Crawler.visit_seeds].
  destruct (fetch_anchors seed) as [e|paragraphs]; [exact H|].
  pose proof (visit_page_bound num_articles paragraphs urls H) as Hp.
  destruct (Crawler.visit_page num_articles paragraphs urls) as [[|] urls'];
    simpl in Hp; [exact Hp|now apply IH].
Qed.

Lemma find_articles_urls self :
  Crawler.urls (snd (Crawler.find_articles fetch_anchors self))
  = snd (Crawler.visit_seeds fetch_anchors
           (Config.get_num_articles (Crawler._config self))
           (Crawler._seed_urls self) (Crawler.urls self)).
Proof.
  unfold Crawler.find_articles.
  now destruct (Crawler.visit_seeds _ _ _ _).
Qed.

Lemma find_articles_config self :
  Crawler._config (snd (Crawler.find_articles fetch_anchors self))
  = Crawler._config self.
Proof.
  unfold Crawler.find_articles.
  now destruct (Crawler.visit_seeds _ _ _ _).
Qed.


End Discovery.



(** C2 (the code departs from it): the membership test of [find_articles]
    looks for the bare [href] in a list that holds the URLs with the site
    prefix, so a link that occurs twice on a listing page is stored
    twice. *)
Theorem find_articles_repeats_url :
  Config.init 150 0 60 (payload (JInt 5)) = inr (course_config 5)
  /\ let crawler :=
       snd (Crawler.find_articles
              (fun _ => inr [anchor "/news/1"; anchor "/news/1"])
              (Crawler.new (course_config 5))) in
     Crawler.urls crawler
     = [u "https://krsk.sibnovosti.ru/news/1";
        u "https://krsk.sibnovosti.ru/news/1"]
     /\ ~ NoDup (Crawler.urls crawler).
Proof.
  split; [reflexivity|].
  assert (E : Crawler.urls
                (snd (Crawler.find_articles
                        (fun _ => inr [anchor "/news/1"; anchor "/news/1"])
                        (Crawler.new (course_config 5))))
              = [u "https://krsk.sibnovosti.ru/news/1";
                 u "https://krsk.sibnovosti.ru/news/1"])
    by (vm_compute; reflexivity).
  split; [exact E|].
  rewrite E. intros Hnd. apply NoDup_cons in Hnd as [Hn _].
  apply Hn. left.
Qed.

(** ** Regular expressions: what a successful run has matched *)

Section RegexFacts.

Import Re.

Lemma star_sound {A} p (k : str -> str -> option A) w s x :
  star p k w s = Some x ->
  exists w' rest,
    s = w' ++ rest /\ Forall (fun c => p c = true) w'
    /\ k (w ++ w') rest = Some x.
Proof.
  assert (Hstop : forall w s, k w s = Some x ->
            exists w' rest,
              s = w' ++ rest /\ Forall (fun c => p c = true) w'
              /\ k (w ++ w') rest = Some x).
  { intros w0 s0 Hk. exists [], s0. rewrite app_nil_r.
    split; [reflexivity|]. split; [constructor|exact Hk]. }
  revert w. induction s as [|c t IH]; intros w H; simpl in H.
  - now apply Hstop.
  - destruct (p c) eqn:Hc; [|now apply Hstop].
    destruct (star p k (w ++ [c]) t) as [y|] eqn:E; [|now apply Hstop].
    injection H as <-. destruct (IH _ E) as (w' & rest & -> & Hall & Hk).
    exists (c :: w'), rest. rewrite <- app_assoc in Hk.
    split; [reflexivity|]. split; [now constructor|exact Hk].
Qed.

Lemma run_sound {A} r : forall s (k : str -> str -> option A) x,
  run r s k = Some x ->
  exists w rest, s = w ++ rest /\ matches r w /\ k w rest = Some x.
Proof.
  induction r as [p|a IHa b IHb|a IHa b IHb|p]; intros s k x H; simpl in H.
  - destruct s as [|c t]; [discriminate|].
    destruct (p c) eqn:Hc; [|discriminate].
    exists [c], t. simpl. eauto.
  - destruct (IHa _ _ _ H) as (w1 & s1 & -> & Ha & H1).
    destruct (IHb _ _ _ H1) as (w2 & s2 & -> & Hb & H2).
    exists (w1 ++ w2), s2. rewrite <- app_assoc. simpl. eauto 10.
  - destruct (run a s k) as [y|] eqn:E.
    + injection H as <-. destruct (IHa _ _ _ E) as (w & rest & ? & ? & ?).
      exists w, rest. simpl. auto.
    + destruct (IHb _ _ _ H) as (w & rest & ? & ? & ?).
      exists w, rest. simpl. auto.
  - destruct s as [|c t]; [discriminate|].
    destruct (p c) eqn:Hc; [|discriminate].
    destruct (star_sound _ _ _ _ _ H) as (w' & rest & -> & Hall & Hk).
    exists (c :: w'), rest. simpl. split; [reflexivity|].
    split; [|exact Hk]. split; [discriminate|]. now constructor.
Qed.


End RegexFacts.

(** ** Date normalisation *)

Section Dates.

Import HTMLParser.

Lemma classify_parts acc element :
  month (classify acc element) = month acc ++ month_part element
  /\ day (classify acc element) = day acc ++ day_part element
  /\ time (classify acc element) = time acc ++ time_part element.
Proof.
  unfold classify, month_part, day_part, time_part.
  destruct (contains (chr ":") element),
    (dict_get element months_collection), (isdigit element),
    (mem element digits); cbn -[u]; rewrite ?app_nil_r; auto.
Qed.

Lemma fold_classify list_date acc :
  month (fold_left classify list_date acc)
  = month acc ++ List.concat (List.map month_part list_date)
  /\ day (fold_left classify list_date acc)
     = day acc ++ List.concat (List.map day_part list_date)
  /\ time (fold_left classify list_date acc)
     = time acc ++ List.concat (List.map time_part list_date).
Proof.
  revert acc. induction list_date as [|e l IH]; intros acc; simpl.
  - now rewrite !app_nil_r.
  - destruct (IH (classify acc e)) as (-> & -> & ->).
    destruct (classify_parts acc e) as (-> & -> & ->).
    now rewrite <- !app_assoc.
Qed.

Lemma collect_parts list_date :
  month (collect list_date) = List.concat (List.map month_part list_date)
  /\ day (collect list_date) = List.concat (List.map day_part list_date)
  /\ time (collect list_date) = List.concat (List.map time_part list_date).
Proof. apply (fold_classify list_date {| month := []; day := []; time := [] |}). Qed.


Lemma concat_map_Forall {A} (P : N -> Prop) (f : A -> str) l :
  Forall (fun e => Forall P (f e)) l -> Forall P (List.concat (List.map f l)).
Proof.
  induction 1 as [|e l He _ IH]; simpl; [constructor|].
  apply Forall_app. auto.
Qed.

Lemma forallb_Forall_true (p : N -> bool) s :
  forallb p s = true -> Forall (fun c => p c = true) s.
Proof.
  induction s as [|c s IH]; simpl; [constructor|].
  intros [Hc Hs]%andb_true_iff. constructor; auto.
Qed.

Lemma isdigit_digits s : isdigit s = true -> Forall (fun c => isdigit_char c = true) s.
Proof. destruct s; [discriminate|]. apply forallb_Forall_true. Qed.

Lemma month_part_digits e : Forall (fun c => isdigit_char c = true) (month_part e).
Proof.
  unfold month_part, months_collection. cbn [dict_get].
  repeat match goal with
         | |- context [if ?b then _ else _] => destruct b
         end; cbn [default]; try constructor; vm_compute; repeat constructor.
Qed.

Lemma day_part_digits e : Forall (fun c => isdigit_char c = true) (day_part e).
Proof.
  unfold day_part. destruct (isdigit e) eqn:E; [|constructor].
  apply isdigit_digits in E. destruct (mem e digits); [|exact E].
  apply Forall_app. split; [|exact E]. repeat constructor.
Qed.

(** The tokens [split] returns hold no white space. *)
Lemma split_from_no_space s : forall cur,
  Forall (fun c => isspace c = false) cur ->
  Forall (Forall (fun c => isspace c = false)) (split_from cur s).
Proof.
  induction s as [|c t IH]; intros cur Hcur; simpl.
  - destruct cur; [constructor|]. constructor; [assumption|constructor].
  - destruct (isspace c) eqn:Hc.
    + destruct cur; [apply IH; constructor|].
      constructor; [assumption|apply IH; constructor].
    + apply IH. apply Forall_app. split; [assumption|]. now repeat constructor.
Qed.

Lemma time_part_no_space e :
  Forall (fun c => isspace c = false) e ->
  Forall (fun c => isspace c = false) (time_part e).
Proof. intros H. unfold time_part. destruct (contains _ _); [exact H|constructor]. Qed.

Lemma time_no_space date_str :
  Forall (fun c => isspace c = false)
    (time (collect (split (lower date_str)))).
Proof.
  destruct (collect_parts (split (lower date_str))) as (_ & _ & ->).
  apply concat_map_Forall.
  eapply Forall_impl; [apply split_from_no_space; constructor|].
  intros e He. now apply time_part_no_space.
Qed.

Lemma correct_date_eq date_str :
  correct_date date_str
  = [50; 48; 50; 51; 45] ++ month (collect (split (lower date_str)))
      ++ 45 :: take 2 (day (collect (split (lower date_str))))
      ++ 32 :: time (collect (split (lower date_str))).
Proof. reflexivity. Qed.



Lemma app_inv_separator {A} (c : A) a b x y :
  a ++ c :: x = b ++ c :: y -> c ∉ a -> c ∉ b -> a = b /\ x = y.
Proof.
  revert b. induction a as [|h a IH]; intros [|h' b] H Ha Hb; simpl in H.
  - injection H as ->. auto.
  - injection H as <- _. destruct Hb. left.
  - injection H as -> _. destruct Ha. left.
  - injection H as <- H.
    destruct (IH b H) as [-> ->]; [intros ?; apply Ha; now right
                                  |intros ?; apply Hb; now right|auto].
Qed.

Lemma digits_without c s :
  isdigit_char c = false -> Forall (fun c => isdigit_char c = true) s -> c ∉ s.
Proof.
  intros Hc Hs Hin. rewrite Forall_forall in Hs. apply Hs in Hin. congruence.
Qed.

End Dates.

Section DateClaims.

Import HTMLParser.

Ltac break_matches :=
  repeat match goal with
         | H : matches _ _ |- _ =>
           progress (unfold datetime.re_Y, datetime.re_m, datetime.re_d,
                       Re.digit, Re.lit, Re.range, Re.spaces in H;
                     cbn [matches] in H)
         | H : exists _, _ |- _ => destruct H
         | H : _ /\ _ |- _ => destruct H
         | H : _ \/ _ |- _ => destruct H
         end; subst.




Lemma year_four_characters Y :
  matches datetime.re_Y Y -> exists a b c e, Y = [a; b; c; e].
Proof. intros H. break_matches. eauto 10. Qed.





End DateClaims.



Section DayPadding.

Import HTMLParser.





End DayPadding.

(** ** The corpus *)

Section Corpus.



Lemma size_loop raw_files :
  Result.for_each raw_files
    (fun file _ =>
       if st_size file =? 0 then inl InconsistentDatasetError else inr tt) tt
  = if forallb (fun f => negb (st_size f =? 0)) raw_files
    then inr tt else inl InconsistentDatasetError.
Proof.
  induction raw_files as [|f l IH]; [reflexivity|]. cbn [Result.for_each forallb].
  destruct (st_size f =? 0); [reflexivity|exact IH].
Qed.




End Corpus.


(** * Further properties *)

(** ** Link discovery, continued *)

Section DiscoveryMore.

Variable fetch_anchors : str -> error + list tag.

Lemma eqb_true (a b : str) : eqb a b = true <-> a = b.
Proof. unfold eqb. apply bool_decide_eq_true. Qed.

Lemma eqb_false (a b : str) : eqb a b = false <-> a <> b.
Proof. unfold eqb. apply bool_decide_eq_false. Qed.

Lemma mem_spec (x : str) l : mem x l = true <-> x ∈ l.
Proof.
  unfold mem. rewrite existsb_exists. split.
  - intros (y & Hy & E). apply eqb_true in E as ->. now apply list_elem_of_In.
  - intros H. exists x. split; [now apply list_elem_of_In|now apply eqb_true].
Qed.

Lemma acceptable_spec url :
  acceptable url = true <-> url <> [] /\ url <> u "url not found".
Proof.
  unfold acceptable. rewrite negb_true_iff, orb_false_iff, !eqb_false. tauto.
Qed.

(** One turn of the inner loop, by cases. *)
Lemma visit_page_step num_articles paragraph rest urls :
  Crawler.visit_page num_articles (paragraph :: rest) urls
  = if (Z.of_nat (length urls) >=? num_articles)%Z then (true, urls)
    else if acceptable (Crawler._extract_url paragraph)
              && negb (mem (Crawler._extract_url paragraph) urls)
         then Crawler.visit_page num_articles rest
                (urls ++ [site_prefix ++ Crawler._extract_url paragraph])
         else Crawler.visit_page num_articles rest urls.
Proof.
  cbn [Crawler.visit_page]. unfold acceptable, site_prefix.
  generalize (u "https://krsk.sibnovosti.ru") as base.
  generalize (u "url not found") as mark. intros mark base.
  destruct (Z.of_nat (length urls) >=? num_articles)%Z; [reflexivity|].
  destruct (eqb (Crawler._extract_url paragraph) []),
    (mem (Crawler._extract_url paragraph) urls),
    (eqb (Crawler._extract_url paragraph) mark); reflexivity.
Qed.

Lemma visit_page_appends num_articles paragraphs : forall urls,
  exists added,
    snd (Crawler.visit_page num_articles paragraphs urls) = urls ++ added
    /\ Forall resolved added.
Proof.
  induction paragraphs as [|p rest IH]; intros urls.
  - exists []. simpl. now rewrite app_nil_r.
  - rewrite visit_page_step.
    destruct (Z.of_nat (length urls) >=? num_articles)%Z.
    { exists []. simpl. now rewrite app_nil_r. }
    destruct (acceptable (Crawler._extract_url p)) eqn:Hok; [|apply IH].
    destruct (mem (Crawler._extract_url p) urls); [apply IH|].
    cbn [andb negb].
    destruct (IH (urls ++ [site_prefix ++ Crawler._extract_url p]))
      as (added & -> & Hall).
    exists ((site_prefix ++ Crawler._extract_url p) :: added).
    rewrite <- app_assoc. split; [reflexivity|].
    constructor; [|exact Hall].
    apply acceptable_spec in Hok as [H1 H2].
    now exists (Crawler._extract_url p).
Qed.

Lemma visit_seeds_appends num_articles seeds : forall urls,
  exists added,
    snd (Crawler.visit_seeds fetch_anchors num_articles seeds urls)
    = urls ++ added
    /\ Forall resolved added.
Proof.
  induction seeds as [|seed rest IH]; intros urls.
  - exists []. simpl. now rewrite app_nil_r.
  - cbn [Crawler.visit_seeds].
    destruct (fetch_anchors seed) as [e|paragraphs].
    { exists []. simpl. now rewrite app_nil_r. }
    destruct (visit_page_appends num_articles paragraphs urls)
      as (added1 & H1 & Hall1).
    destruct (Crawler.visit_page num_articles paragraphs urls)
      as [[|] urls']; simpl in H1; subst urls'.
    + exists added1. auto.
    + destruct (IH (urls ++ added1)) as (added2 & -> & Hall2).
      exists (added1 ++ added2). rewrite <- app_assoc.
      split; [reflexivity|]. now apply Forall_app.
Qed.

(** X1: [find_articles] only appends: the URLs the crawler held stay in
    place, and every URL it adds is the site prefix followed by an [href]
    that is neither empty nor the mark of a missing link. *)
Theorem find_articles_only_appends_resolved self :
  exists added,
    Crawler.urls (snd (Crawler.find_articles fetch_anchors self))
    = Crawler.urls self ++ added
    /\ Forall resolved added.
Proof.
  rewrite find_articles_urls. apply visit_seeds_appends.
Qed.

Lemma visit_seeds_error num_articles seeds : forall urls e,
  fst (Crawler.visit_seeds fetch_anchors num_articles seeds urls) = inl e ->
  exists seed, seed ∈ seeds /\ fetch_anchors seed = inl e.
Proof.
  induction seeds as [|seed rest IH]; intros urls e H; [discriminate|].
  cbn [Crawler.visit_seeds] in H.
  destruct (fetch_anchors seed) as [e'|paragraphs] eqn:Hf.
  - injection H as ->. exists seed. split; [left|exact Hf].
  - destruct (Crawler.visit_page num_articles paragraphs urls)
      as [[|] urls']; [discriminate|].
    destruct (IH _ _ H) as (s & Hs & Hfs). exists s. split; [now right|exact Hfs].
Qed.

(** X2: [find_articles] raises nothing of its own: when it ends with an
    exception, that exception is the one the request of one of the seed
    pages raised. *)
Theorem find_articles_error_from_fetch self e :
  fst (Crawler.find_articles fetch_anchors self) = inl e ->
  exists seed, seed ∈ Crawler._seed_urls self /\ fetch_anchors seed = inl e.
Proof.
  unfold Crawler.find_articles.
  destruct (Crawler.visit_seeds fetch_anchors
              (Config.get_num_articles (Crawler._config self))
              (Crawler._seed_urls self) (Crawler.urls self))
    as [outcome urls'] eqn:E.
  intros H.
  apply (visit_seeds_error (Config.get_num_articles (Crawler._config self))
           (Crawler._seed_urls self) (Crawler.urls self)).
  rewrite E. exact H.
Qed.

End DiscoveryMore.

Section RelativeLinks.

Variable fetch_anchors : str -> error + list tag.

Lemma relative_not_stored href urls :
  Forall (fun url => site_prefix `prefix_of` url) urls ->
  ~ site_prefix `prefix_of` href ->
  mem href urls = false.
Proof.
  intros Hall Hrel. apply not_true_iff_false. rewrite mem_spec. intros Hin.
  rewrite Forall_forall in Hall. now apply Hrel, Hall.
Qed.

Lemma prefixed_links (hrefs : list str) n :
  Forall (fun url => site_prefix `prefix_of` url)
    (take n (List.map (app site_prefix) hrefs)).
Proof.
  apply Forall_take, Forall_forall. intros url Hin.
  apply list_elem_of_In, in_map_iff in Hin as (h & <- & _). now exists h.
Qed.

Lemma visit_page_relative num_articles paragraphs : forall urls,
  Forall (fun url => site_prefix `prefix_of` url) urls ->
  Forall (fun href => ~ site_prefix `prefix_of` href)
    (List.map Crawler._extract_url paragraphs) ->
  snd (Crawler.visit_page num_articles paragraphs urls)
  = urls ++ take (Z.to_nat (num_articles - Z.of_nat (length urls)))
              (List.map (app site_prefix)
                 (List.filter acceptable
                    (List.map Crawler._extract_url paragraphs))).
Proof.
  induction paragraphs as [|p rest IH]; intros urls Hurls Hrel.
  - simpl. now rewrite take_nil, app_nil_r.
  - cbn [List.map] in Hrel. apply Forall_cons in Hrel as [Hp Hrest].
    rewrite visit_page_step.
    destruct (Z.of_nat (length urls) >=? num_articles)%Z eqn:Hfull.
    { apply Z.geb_le in Hfull.
      replace (Z.to_nat (num_articles - Z.of_nat (length urls))) with 0%nat
        by lia.
      simpl. now rewrite app_nil_r. }
    rewrite Z.geb_leb in Hfull. apply Z.leb_gt in Hfull.
    rewrite (relative_not_stored _ _ Hurls Hp). cbn [List.map List.filter].
    destruct (acceptable (Crawler._extract_url p)); cbn [andb negb];
      [|now apply IH].
    rewrite IH; [|apply Forall_app; split; [exact Hurls|]|exact Hrest].
    + rewrite length_app. cbn [length List.map].
      replace (Z.to_nat (num_articles - Z.of_nat (length urls)))
        with (S (Z.to_nat (num_articles - Z.of_nat (length urls + 1))))
        by lia.
      cbn [take]. now rewrite <- app_assoc.
    + constructor; [|constructor]. now exists (Crawler._extract_url p).
Qed.

Lemma visit_page_returned num_articles paragraphs : forall urls,
  fst (Crawler.visit_page num_articles paragraphs urls) = true ->
  (num_articles
   <= Z.of_nat (length (snd (Crawler.visit_page num_articles paragraphs urls))))%Z.
Proof.
  induction paragraphs as [|p rest IH]; intros urls; [discriminate|].
  rewrite visit_page_step.
  destruct (Z.of_nat (length urls) >=? num_articles)%Z eqn:Hfull.
  { intros _. now apply Z.geb_le in Hfull. }
  destruct (acceptable (Crawler._extract_url p)
            && negb (mem (Crawler._extract_url p) urls)); apply IH.
Qed.

Lemma visit_seeds_relative num_articles seeds pages :
  Forall2 (fun seed page => fetch_anchors seed = inr page) seeds pages ->
  forall urls,
    Forall (fun url => site_prefix `prefix_of` url) urls ->
    Forall (fun href => ~ site_prefix `prefix_of` href) (discovered pages) ->
    Crawler.visit_seeds fetch_anchors num_articles seeds urls
    = (inr tt,
       urls ++ take (Z.to_nat (num_articles - Z.of_nat (length urls)))
                 (List.map (app site_prefix)
                    (List.filter acceptable (discovered pages)))).
Proof.
  induction 1 as [|seed page seeds pages Hfetch _ IH]; intros urls Hurls Hrel.
  - simpl. now rewrite take_nil, app_nil_r.
  - unfold discovered in Hrel |- *. cbn [List.map List.concat] in Hrel |- *.
    apply Forall_app in Hrel as [Hpage Hrest].
    cbn [Crawler.visit_seeds]. rewrite Hfetch.
    pose proof (visit_page_relative num_articles page urls Hurls Hpage) as Hp.
    pose proof (visit_page_returned num_articles page urls) as Hret.
    destruct (Crawler.visit_page num_articles page urls) as [returned urls'].
    cbn [fst snd] in Hp, Hret.
    rewrite List.filter_app, List.map_app, take_app.
    set (accepted := List.map (app site_prefix)
                       (List.filter acceptable
                          (List.map Crawler._extract_url page))) in *.
    set (k := Z.to_nat (num_articles - Z.of_nat (length urls))) in *.
    assert (Hlen : length urls'
                   = (length urls + Nat.min k (length accepted))%nat)
      by (rewrite Hp, length_app, length_take; reflexivity).
    destruct returned.
    + specialize (Hret eq_refl).
      replace (k - length accepted)%nat with 0%nat by lia.
      rewrite take_0, app_nil_r. now rewrite Hp.
    + rewrite IH; [|rewrite Hp; apply Forall_app; split;
                      [exact Hurls|apply prefixed_links]
                   |exact Hrest].
      fold (discovered pages).
      replace (Z.to_nat (num_articles - Z.of_nat (length urls')))
        with (k - length accepted)%nat by lia.
      now rewrite Hp, <- app_assoc.
Qed.

(** X3: when every seed page is fetched and no [href] on the pages begins
    with the site prefix, the crawler ends up with the first [num_articles]
    links that are neither empty nor missing, in the order of the pages,
    each after the site prefix; a link that occurs again is taken again. *)
Theorem find_articles_relative_links config pages :
  Forall2 (fun seed page => fetch_anchors seed = inr page)
    (Config.get_seed_urls config) pages ->
  Forall (fun href => ~ site_prefix `prefix_of` href) (discovered pages) ->
  let result := Crawler.find_articles fetch_anchors (Crawler.new config) in
  fst result = inr tt
  /\ Crawler.urls (snd result)
     = take (Z.to_nat (Config.get_num_articles config))
         (List.map (app site_prefix)
            (List.filter acceptable (discovered pages))).
Proof.
  intros Hfetch Hrel. unfold Crawler.find_articles, Crawler.new.
  cbn [Crawler.urls Crawler._config Crawler._seed_urls].
  rewrite (visit_seeds_relative _ _ _ Hfetch [] (Forall_nil_2 _) Hrel).
  cbn [fst snd Crawler.urls app length]. split; [reflexivity|].
  f_equal. lia.
Qed.

End RelativeLinks.

(** Two listing pages with a repeated, an empty and a missing link, for a
    count of three. *)
Lemma find_articles_relative_links_witness :
  let fetch := fun _ : str =>
    inr [anchor "/a"; anchor ""; anchor "/a"; {| get_href := Absent |};
         anchor "/b"; anchor "/c"] in
  let result := Crawler.find_articles fetch (Crawler.new (course_config 3)) in
  fst result = inr tt
  /\ Crawler.urls (snd result)
     = take 3
         (List.map (app site_prefix)
            (List.filter acceptable
               (discovered
                  [[anchor "/a"; anchor ""; anchor "/a";
                    {| get_href := Absent |}; anchor "/b"; anchor "/c"]]))).
Proof.
  apply (find_articles_relative_links
           (fun _ : str =>
              inr [anchor "/a"; anchor ""; anchor "/a";
                   {| get_href := Absent |}; anchor "/b"; anchor "/c"])
           (course_config 3)
           [[anchor "/a"; anchor ""; anchor "/a"; {| get_href := Absent |};
             anchor "/b"; anchor "/c"]]).
  - repeat constructor.
  - vm_compute. repeat constructor; intros [k Hk]; discriminate Hk.
Defined.

(** ** Configuration, continued *)

Section ConfigMore.

Variables NUM_ARTICLES_UPPER_LIMIT TIMEOUT_LOWER_LIMIT TIMEOUT_UPPER_LIMIT : Z.

Lemma seed_strings l :
  forallb seed_url_ok l = true ->
  l = List.map JStr (Config.strings (JList l))
  /\ Forall (fun s => re_match_seed s = true) (Config.strings (JList l)).
Proof.
  unfold Config.strings. induction l as [|url l IH]; [now split|].
  cbn [forallb]. intros [Hurl Hl]%andb_true_iff.
  destruct url; try discriminate. cbn [seed_url_ok] in Hurl.
  destruct (IH Hl) as [E Hall]. cbn. split.
  - f_equal. exact E.
  - constructor; assumption.
Qed.

(** X4: a [Config] is only ever constructed from a payload that passes
    every check, and it then holds the seed URLs of the payload unchanged,
    each one matching the pattern, and its article count, which lies
    between 1 and the upper limit. *)
Theorem config_init_holds_checked_values dto config :
  Config.init NUM_ARTICLES_UPPER_LIMIT TIMEOUT_LOWER_LIMIT TIMEOUT_UPPER_LIMIT
    dto = inr config ->
  seed_urls dto = JList (List.map JStr (Config.get_seed_urls config))
  /\ Forall (fun s => re_match_seed s = true) (Config.get_seed_urls config)
  /\ total_articles dto = JInt (Config.get_num_articles config)
  /\ (1 <= Config.get_num_articles config <= NUM_ARTICLES_UPPER_LIMIT)%Z
  /\ headers_ok dto = true /\ encoding_ok dto = true
  /\ timeout_ok TIMEOUT_LOWER_LIMIT TIMEOUT_UPPER_LIMIT dto = true
  /\ flags_ok dto = true.
Proof.
  unfold Config.init. rewrite validate_cascade.
  destruct (seed_urls_ok dto) eqn:Hs; [|discriminate].
  destruct (count_wellformed dto) eqn:Hw; [|discriminate].
  destruct (count_in_range NUM_ARTICLES_UPPER_LIMIT dto) eqn:Hr; [|discriminate].
  destruct (headers_ok dto); [|discriminate].
  destruct (encoding_ok dto); [|discriminate].
  destruct (timeout_ok _ _ dto); [|discriminate].
  destruct (flags_ok dto); [|discriminate].
  cbn [negb Result.bind]. intros [= <-].
  cbn [Config.get_seed_urls Config.get_num_articles Config._seed_urls
         Config._num_articles].
  unfold seed_urls_ok in Hs. unfold count_wellformed in Hw.
  unfold count_in_range in Hr.
  destruct (seed_urls dto) as [| | | | |l|]; try discriminate.
  destruct (total_articles dto) as [| |n| | | |]; try discriminate.
  cbn [int_value] in *. apply Z.leb_le in Hw, Hr.
  destruct (seed_strings l Hs) as [E Hall].
  repeat (split; [first [now f_equal|assumption|reflexivity|lia]|]).
  reflexivity.
Qed.

(** X5: booleans count as integers for the timeout: [true] is accepted as
    a timeout of 1 and [false] as 0 when the bounds allow that number, the
    other fields being valid. *)
Theorem boolean_timeout_accepted dto b :
  seed_urls_ok dto = true -> count_wellformed dto = true ->
  count_in_range NUM_ARTICLES_UPPER_LIMIT dto = true ->
  headers_ok dto = true -> encoding_ok dto = true -> flags_ok dto = true ->
  timeout dto = JBool b ->
  (TIMEOUT_LOWER_LIMIT <= Z.b2z b <= TIMEOUT_UPPER_LIMIT)%Z ->
  Config._validate_config_content NUM_ARTICLES_UPPER_LIMIT TIMEOUT_LOWER_LIMIT
    TIMEOUT_UPPER_LIMIT dto = inr tt.
Proof.
  intros Hs Hw Hr Hh He Hf Ht [Hlo Hhi]. rewrite validate_cascade.
  rewrite Hs, Hw, Hr, Hh, He, Hf. unfold timeout_ok. rewrite Ht.
  cbn [isinstance_int int_value andb negb].
  now rewrite (proj2 (Z.leb_le _ _) Hlo), (proj2 (Z.leb_le _ _) Hhi).
Qed.

End ConfigMore.

Lemma config_init_holds_checked_values_witness :
  seed_urls (payload (JInt 3))
  = JList (List.map JStr (Config.get_seed_urls (course_config 3)))
  /\ Forall (fun s => re_match_seed s = true)
       (Config.get_seed_urls (course_config 3))
  /\ total_articles (payload (JInt 3))
     = JInt (Config.get_num_articles (course_config 3))
  /\ (1 <= Config.get_num_articles (course_config 3) <= 150)%Z
  /\ headers_ok (payload (JInt 3)) = true
  /\ encoding_ok (payload (JInt 3)) = true
  /\ timeout_ok 0 60 (payload (JInt 3)) = true
  /\ flags_ok (payload (JInt 3)) = true.
Proof.
  apply (config_init_holds_checked_values 150 0 60 (payload (JInt 3))
           (course_config 3)).
  reflexivity.
Defined.

Lemma boolean_timeout_accepted_witness :
  Config._validate_config_content 150 0 60
    {| seed_urls := JList [JStr (u "https://krsk.sibnovosti.ru/news/")];
       total_articles := JInt 3;
       headers := JDict [];
       encoding := JStr (u "utf-8");
       timeout := JBool true;
       should_verify_certificate := JBool true;
       headless_mode := JBool false |}
  = inr tt.
Proof.
  apply (boolean_timeout_accepted 150 0 60 _ true);
    try reflexivity. cbn. lia.
Defined.

Section SeedPattern.

Lemma any_then_slash_spec s :
  any_then_slash s = true
  <-> exists body tail, s = body ++ chr "/" :: tail /\ 10 ∉ body.
Proof.
  change (chr "/") with 47. split.
  - induction s as [|c t IH]; [discriminate|]. cbn [any_then_slash].
    change (chr "/") with 47.
    destruct (c =? 47) eqn:Hc.
    + apply N.eqb_eq in Hc as ->. intros _. exists [], t.
      split; [reflexivity|apply not_elem_of_nil].
    + destruct (c =? 10) eqn:Hn; [discriminate|]. cbn [orb negb andb].
      intros H. destruct (IH H) as (body & tail & -> & Hb).
      exists (c :: body), tail. split; [reflexivity|].
      apply N.eqb_neq in Hn. rewrite elem_of_cons. intros [E|E]; auto.
  - intros (body & tail & -> & Hb). induction body as [|b body IH].
    + reflexivity.
    + cbn [app any_then_slash]. rewrite IH.
      * assert (Hn : (b =? 10) = false)
          by (apply N.eqb_neq; intros ->; apply Hb; left).
        rewrite Hn. cbn [negb andb]. apply orb_true_r.
      * intros Hin. apply Hb. now right.
Qed.

Lemma after_prefix_spec p : forall s r,
  after_prefix p s = Some r <-> s = p ++ r.
Proof.
  induction p as [|a p IH]; intros s r; cbn [after_prefix app].
  - destruct s; split; congruence.
  - destruct s as [|b s]; [split; discriminate|].
    destruct (a =? b) eqn:E.
    + apply N.eqb_eq in E as ->. rewrite IH. split; congruence.
    + apply N.eqb_neq in E. split; [discriminate|]. congruence.
Qed.

Lemma scheme_end_then_path_spec s :
  scheme_end_then_path s = true
  <-> exists body tail, s = u "://" ++ body ++ chr "/" :: tail /\ 10 ∉ body.
Proof.
  unfold scheme_end_then_path. split.
  - destruct (after_prefix (u "://") s) as [rest|] eqn:E; [|discriminate].
    apply after_prefix_spec in E as ->.
    intros (body & tail & -> & Hb)%any_then_slash_spec. eauto.
  - intros (body & tail & -> & Hb).
    rewrite (proj2 (after_prefix_spec (u "://") _ (body ++ chr "/" :: tail)))
      by reflexivity.
    apply any_then_slash_spec. eauto.
Qed.

(** X6: the seed pattern accepts exactly the strings that begin with
    "http://" or "https://" and have a slash after that, with no line
    feed between the two. *)
Theorem re_match_seed_spec url :
  re_match_seed url = true
  <-> exists scheme body tail,
        (scheme = u "http" \/ scheme = u "https")
        /\ url = scheme ++ u "://" ++ body ++ chr "/" :: tail
        /\ 10 ∉ body.
Proof.
  unfold re_match_seed. split.
  - destruct (after_prefix (u "http") url) as [rest|] eqn:E; [|discriminate].
    apply after_prefix_spec in E as ->.
    assert (Hplain : scheme_end_then_path rest = true ->
              exists scheme body tail,
                (scheme = u "http" \/ scheme = u "https")
                /\ u "http" ++ rest = scheme ++ u "://" ++ body ++ chr "/" :: tail
                /\ 10 ∉ body).
    { intros (body & tail & -> & Hb)%scheme_end_then_path_spec.
      exists (u "http"), body, tail. auto. }
    destruct rest as [|c rest']; [exact Hplain|].
    destruct (N.eq_dec c 115) as [->|Hc].
    + intros [H|H]%orb_true_iff; [|now apply Hplain].
      apply scheme_end_then_path_spec in H as (body & tail & -> & Hb).
      exists (u "https"), body, tail. auto.
    + intros H. apply Hplain. revert H.
      repeat match goal with
             | |- context [match ?x with _ => _ end] => is_var x; destruct x
             end; auto; congruence.
  - intros (scheme & body & tail & [->| ->] & -> & Hb).
    + rewrite (proj2 (after_prefix_spec (u "http") _
                        (u "://" ++ body ++ chr "/" :: tail))) by reflexivity.
      change (u "://" ++ body ++ chr "/" :: tail)
        with (58 :: [47; 47] ++ body ++ chr "/" :: tail).
      cbv iota beta.
      apply scheme_end_then_path_spec. exists body, tail. auto.
    + rewrite (proj2 (after_prefix_spec (u "http") _
                        (115 :: u "://" ++ body ++ chr "/" :: tail)))
        by reflexivity.
      apply orb_true_iff. left.
      apply scheme_end_then_path_spec. exists body, tail. auto.
Qed.

End SeedPattern.

(** ** Date normalisation, continued *)

Section DateFields.

Import HTMLParser.

Ltac split_matches :=
  repeat match goal with
         | H : matches _ _ |- _ =>
           progress (unfold datetime.re_Y, datetime.re_m, datetime.re_d,
                       datetime.re_H, datetime.re_M,
                       Re.digit, Re.lit, Re.range, Re.spaces in H;
                     cbn [matches] in H)
         | H : exists _, _ |- _ => destruct H
         | H : _ /\ _ |- _ => destruct H
         | H : _ \/ _ |- _ => destruct H
         end; subst.

(** Turns the tests on the characters of a group into bounds and goes
    through the digits they allow. *)
Ltac bound_chars :=
  repeat match goal with
         | H : isdigit_char _ = true |- _ => unfold isdigit_char in H
         | H : (?a =? ?c) = true |- _ =>
           let a' := eval vm_compute in a in
           change ((a' =? c) = true) in H; apply N.eqb_eq in H; subst c
         | H : between ?a ?b ?c = true |- _ =>
           let a' := eval vm_compute in a in
           let b' := eval vm_compute in b in
           change (between a' b' c = true) in H; apply between_spec in H
         end.

Ltac each_digit c :=
  let E := fresh "E" in
  assert (E : c = 48 \/ c = 49 \/ c = 50 \/ c = 51 \/ c = 52 \/ c = 53
              \/ c = 54 \/ c = 55 \/ c = 56 \/ c = 57) by lia;
  repeat destruct E as [E|E]; subst c; try lia.

Ltac read_number :=
  match goal with
  | H : int _ = Some _ |- _ => vm_compute in H; injection H as <-; lia
  end.

Lemma month_value m k :
  matches datetime.re_m m -> int m = Some k -> (1 <= k <= 12)%Z.
Proof.
  intros H Hk. split_matches; bound_chars;
    repeat match goal with
           | H : _ <= ?c <= _ |- _ => is_var c; each_digit c
           end; read_number.
Qed.

Lemma day_value dd k :
  matches datetime.re_d dd -> int dd = Some k -> (1 <= k <= 31)%Z.
Proof.
  intros H Hk. split_matches; bound_chars;
    repeat match goal with
           | H : _ <= ?c <= _ |- _ => is_var c; each_digit c
           end; read_number.
Qed.

Lemma hour_value h k :
  matches datetime.re_H h -> int h = Some k -> (0 <= k <= 23)%Z.
Proof.
  intros H Hk. split_matches; bound_chars;
    repeat match goal with
           | H : _ <= ?c <= _ |- _ => is_var c; each_digit c
           end; read_number.
Qed.

Lemma minute_value mi k :
  matches datetime.re_M mi -> int mi = Some k -> (0 <= k <= 59)%Z.
Proof.
  intros H Hk. split_matches; bound_chars;
    repeat match goal with
           | H : _ <= ?c <= _ |- _ => is_var c; each_digit c
           end; read_number.
Qed.

Ltac digit_chars :=
  repeat constructor;
  first [reflexivity | unfold isdigit_char; apply between_spec; lia].

Lemma month_group_digits m :
  matches datetime.re_m m -> Forall (fun c => isdigit_char c = true) m.
Proof. intros H. split_matches; bound_chars; digit_chars. Qed.

Lemma hour_group_digits h :
  matches datetime.re_H h -> Forall (fun c => isdigit_char c = true) h.
Proof. intros H. split_matches; bound_chars; digit_chars. Qed.

Lemma minute_group_digits mi :
  matches datetime.re_M mi -> Forall (fun c => isdigit_char c = true) mi.
Proof. intros H. split_matches; bound_chars; digit_chars. Qed.

Lemma day_group_shape dd :
  matches datetime.re_d dd ->
  (dd <> [] /\ Forall (fun c => isdigit_char c = true) dd)
  \/ exists c, dd = [32; c].
Proof.
  intros H. split_matches; bound_chars;
    first [right; eexists; reflexivity
          |left; split; [discriminate|digit_chars]].
Qed.

Lemma month_group_length m :
  matches datetime.re_m m -> (1 <= length m <= 2)%nat.
Proof. intros H. split_matches; simpl; lia. Qed.

Lemma digit_not_space c : isdigit_char c = true -> isspace c = false.
Proof.
  unfold isdigit_char. intros H%between_spec.
  apply not_true_is_false. unfold isspace.
  rewrite !orb_true_iff, !between_spec, !N.eqb_eq. lia.
Qed.

Lemma app_inv_first (P : N -> bool) a : forall b c c' x y,
  a ++ c :: x = b ++ c' :: y ->
  Forall (fun e => P e = false) a -> Forall (fun e => P e = false) b ->
  P c = true -> P c' = true ->
  a = b /\ c = c' /\ x = y.
Proof.
  induction a as [|h a IH]; intros [|h' b] c c' x y H Ha Hb Hc Hc';
    simpl in H; injection H as E H.
  - subst. auto.
  - subst. inversion Hb; subst. congruence.
  - subst. inversion Ha; subst. congruence.
  - subst. inversion Ha; inversion Hb; subst.
    destruct (IH b c c' x y H) as (-> & -> & ->); auto.
Qed.

(** What [strptime] returns, read off the groups of the match. *)
Lemma strptime_fields data_string d :
  datetime.strptime data_string = inr d ->
  exists Y m dd ws H M,
    data_string = Y ++ [chr "-"] ++ m ++ [chr "-"] ++ dd ++ ws ++ H
                    ++ [chr ":"] ++ M
    /\ (matches datetime.re_Y Y /\ matches datetime.re_m m
        /\ matches datetime.re_d dd /\ matches Re.spaces ws
        /\ matches datetime.re_H H /\ matches datetime.re_M M)
    /\ int Y = Some (datetime.year d) /\ int m = Some (datetime.month d)
    /\ int dd = Some (datetime.day d) /\ int H = Some (datetime.hour d)
    /\ int M = Some (datetime.minute d)
    /\ (datetime.day d
        <= datetime.days_in_month (datetime.year d) (datetime.month d))%Z.
Proof.
  unfold datetime.strptime.
  match goal with
  | |- context [match ?f with Some _ => _ | None => _ end] =>
    destruct f as [[[[[[Y m] dd] H] M] rest]|] eqn:E
  end; [|discriminate].
  intros Hd.
  apply run_sound in E as (Y' & s1 & -> & HY & E).
  apply run_sound in E as (x1 & s2 & -> & (c1 & -> & Hc1) & E).
  apply run_sound in E as (m' & s3 & -> & Hm & E).
  apply run_sound in E as (x2 & s4 & -> & (c2 & -> & Hc2) & E).
  apply run_sound in E as (dd' & s5 & -> & Hdd & E).
  apply run_sound in E as (ws & s6 & -> & Hws & E).
  apply run_sound in E as (H' & s7 & -> & HH & E).
  apply run_sound in E as (x3 & s8 & -> & (c3 & -> & Hc3) & E).
  apply run_sound in E as (M' & s9 & -> & HM & E).
  injection E as <- <- <- <- <- <-.
  apply N.eqb_eq in Hc1, Hc2, Hc3. subst c1 c2 c3.
  destruct s9; [|discriminate].
  destruct (int Y') as [year|] eqn:HiY; [|discriminate].
  destruct (int m') as [month|] eqn:Him; [|discriminate].
  destruct (int dd') as [day|] eqn:Hid; [|discriminate].
  destruct (int H') as [hour|] eqn:HiH; [|discriminate].
  destruct (int M') as [minute|] eqn:HiM; [|discriminate].
  destruct ((1 <=? year)%Z && (day <=? datetime.days_in_month year month)%Z)
    eqn:Hvalid; [|discriminate].
  injection Hd as <-. apply andb_true_iff in Hvalid as [_ Hday].
  apply Z.leb_le in Hday.
  exists Y', m', dd', ws, H', M'. rewrite app_nil_r.
  split; [reflexivity|]. split; [repeat (split; [assumption|]); assumption|].
  cbn [datetime.year datetime.month datetime.day datetime.hour
         datetime.minute].
  repeat (split; [assumption|]). exact Hday.
Qed.

(** The parts of an accepted input: the month string is one month group,
    the day field one day group, and the time string an hour group, a
    colon and a minute group; the timestamp holds their numbers and the
    year 2023. *)
Lemma accepted_parts date_str d :
  unify_date_format date_str = inr d ->
  let p := collect (split (lower date_str)) in
  datetime.year d = 2023%Z
  /\ matches datetime.re_m (month p)
  /\ int (month p) = Some (datetime.month d)
  /\ matches datetime.re_d (take 2 (day p))
  /\ int (take 2 (day p)) = Some (datetime.day d)
  /\ (datetime.day d
      <= datetime.days_in_month (datetime.year d) (datetime.month d))%Z
  /\ exists H M,
       time p = H ++ chr ":" :: M
       /\ matches datetime.re_H H /\ matches datetime.re_M M
       /\ int H = Some (datetime.hour d)
       /\ int M = Some (datetime.minute d).
Proof.
  unfold unify_date_format. intros Hd.
  apply strptime_fields in Hd
    as (Y & m & dd & ws & H & M & Heq & (HY & Hm & Hdd & Hws & HH & HM)
        & HiY & Him & Hid & HiH & HiM & Hday).
  rewrite correct_date_eq in Heq. cbv zeta.
  assert (Hmo : Forall (fun c => isdigit_char c = true)
                  (month (collect (split (lower date_str))))).
  { destruct (collect_parts (split (lower date_str))) as (-> & _ & _).
    apply concat_map_Forall, Forall_forall. intros. apply month_part_digits. }
  assert (Hdy : Forall (fun c => isdigit_char c = true)
                  (take 2 (day (collect (split (lower date_str)))))).
  { apply Forall_take.
    destruct (collect_parts (split (lower date_str))) as (_ & -> & _).
    apply concat_map_Forall, Forall_forall. intros. apply day_part_digits. }
  pose proof (time_no_space date_str) as Hti.
  revert Heq Hmo Hdy Hti.
  generalize (month (collect (split (lower date_str)))) as mo.
  generalize (take 2 (day (collect (split (lower date_str))))) as dy.
  generalize (time (collect (split (lower date_str)))) as ti.
  intros ti dy mo Heq Hmo Hdy Hti.
  destruct (year_four_characters Y HY) as (a & b & c & e & ->).
  cbn [app] in Heq. injection Heq as <- <- <- <- Heq.
  assert (Hyear : datetime.year d = 2023%Z)
    by (vm_compute in HiY; injection HiY as E; symmetry; exact E).
  symmetry in Heq.
  apply app_inv_separator in Heq as [<- Heq];
    [|apply digits_without; [reflexivity|now apply month_group_digits]
     |now apply digits_without].
  destruct Hws as [Hne Hspaces].
  destruct ws as [|w ws']; [congruence|].
  apply Forall_cons in Hspaces as [Hw Hws'].
  assert (Hparts : dd = dy /\ ti = H ++ chr ":" :: M).
  { destruct (day_group_shape dd Hdd) as [[_ Hdigits]|[c' ->]].
    - cbn [app] in Heq.
      apply (app_inv_first isspace) in Heq as (-> & _ & Heq);
        [|eapply Forall_impl; [exact Hdigits|apply digit_not_space]
         |eapply Forall_impl; [exact Hdy|apply digit_not_space]
         |exact Hw|reflexivity].
      split; [reflexivity|].
      destruct ws' as [|w' ws'']; [now rewrite <- Heq|].
      exfalso. rewrite <- Heq in Hti. cbn [app] in Hti.
      apply Forall_cons in Hws' as [Hw' _].
      apply Forall_cons in Hti as [Hn _]. congruence.
    - exfalso. destruct dy as [|x dy'].
      + cbn [app] in Heq. injection Heq as Heq. rewrite <- Heq in Hti.
        apply Forall_cons in Hti as [_ Hti].
        apply Forall_cons in Hti as [Hn _]. congruence.
      + cbn [app] in Heq. injection Heq as E _. subst x.
        apply Forall_cons in Hdy as [Hx _]. discriminate Hx. }
  destruct Hparts as [-> ->].
  repeat (split; [assumption|]).
  exists H, M. auto.
Qed.

End DateFields.

Section DateTokens.

Import HTMLParser.

Lemma contains_spec c s : contains c s = true <-> c ∈ s.
Proof.
  unfold contains. rewrite existsb_exists. split.
  - intros (y & Hy & E). apply N.eqb_eq in E as <-. now apply list_elem_of_In.
  - intros H. exists c. split; [now apply list_elem_of_In|apply N.eqb_refl].
Qed.

Lemma month_code_length e code :
  dict_get e months_collection = Some code -> length code = 2%nat.
Proof.
  unfold months_collection. cbn [dict_get].
  repeat match goal with
         | |- context [if ?b then _ else _] => destruct b
         end; intros [= <-]; reflexivity.
Qed.

Lemma concat_map_nil_inv {A} (f : A -> str) l :
  List.concat (List.map f l) = [] -> Forall (fun e => f e = []) l.
Proof.
  induction l as [|e l IH]; cbn [List.map List.concat]; [constructor|].
  intros [H1 H2]%app_eq_nil. constructor; auto.
Qed.

(** A concatenation of month codes that is as long as one code comes from
    one token. *)
Lemma one_month_token l mo :
  List.concat (List.map month_part l) = mo ->
  (1 <= length mo <= 2)%nat ->
  exists before name after,
    l = before ++ name :: after
    /\ dict_get name months_collection = Some mo
    /\ Forall (fun e => dict_get e months_collection = None) before
    /\ Forall (fun e => dict_get e months_collection = None) after.
Proof.
  assert (Hnone : forall e, month_part e = [] ->
                            dict_get e months_collection = None).
  { intros e. unfold month_part.
    destruct (dict_get e months_collection) as [code|] eqn:E; [|reflexivity].
    apply month_code_length in E. change (default [] (Some code)) with code.
    intros ->. discriminate E. }
  revert mo. induction l as [|e l IH]; intros mo Hmo Hlen;
    cbn [List.map List.concat] in Hmo.
  - subst mo. simpl in Hlen. lia.
  - unfold month_part at 1 in Hmo.
    destruct (dict_get e months_collection) as [code|] eqn:E;
      unfold default in Hmo; cbn [from_option id] in Hmo.
    + pose proof (month_code_length _ _ E) as Hcode.
      assert (Hrest : List.concat (List.map month_part l) = []).
      { apply length_zero_iff_nil. subst mo. rewrite length_app in Hlen. lia. }
      rewrite Hrest, app_nil_r in Hmo. subst mo.
      exists [], e, l. split; [reflexivity|]. split; [exact E|].
      split; [constructor|].
      eapply Forall_impl; [apply concat_map_nil_inv, Hrest|]. exact Hnone.
    + cbn [app] in Hmo.
      destruct (IH mo Hmo Hlen) as (before & name & after & -> & Hn & Hb & Ha).
      exists (e :: before), name, after. split; [reflexivity|].
      split; [exact Hn|]. split; [now constructor|exact Ha].
Qed.

Lemma colon_in_concat (parts : list str) :
  Forall (fun e => chr ":" ∈ e \/ e = []) parts ->
  List.concat parts <> [] -> chr ":" ∈ List.concat parts.
Proof.
  induction 1 as [|x parts [Hx| ->] _ IH]; cbn [List.concat]; intros Hne.
  - congruence.
  - apply elem_of_app. now left.
  - cbn [app] in *. now apply IH.
Qed.

(** A concatenation of colon-bearing tokens that holds one colon is one
    token. *)
Lemma one_time_token l H M :
  List.concat (List.map time_part l) = H ++ chr ":" :: M ->
  chr ":" ∉ H -> chr ":" ∉ M ->
  exists before after,
    l = before ++ (H ++ chr ":" :: M) :: after
    /\ Forall (fun e => contains (chr ":") e = false) before
    /\ Forall (fun e => contains (chr ":") e = false) after.
Proof.
  intros Hti HH HM. induction l as [|e l IH];
    cbn [List.map List.concat] in Hti.
  - destruct H; discriminate.
  - unfold time_part at 1 in Hti.
    destruct (contains (chr ":") e) eqn:E.
    + apply contains_spec in E.
      apply list_elem_of_split_l in E as (a & b & -> & Ha).
      rewrite <- app_assoc in Hti. cbn [app] in Hti.
      apply app_inv_separator in Hti as [-> Hti]; [|assumption|assumption].
      assert (Hrest : List.concat (List.map time_part l) = []).
      { destruct (List.concat (List.map time_part l)) as [|c rest] eqn:Hc;
          [reflexivity|exfalso].
        assert (Hall : Forall (fun e => chr ":" ∈ e \/ e = [])
                         (List.map time_part l)).
        { apply Forall_forall. intros x Hx.
          apply list_elem_of_In, in_map_iff in Hx as (y & <- & _).
          unfold time_part. destruct (contains (chr ":") y) eqn:Ey; [|now right].
          left. now apply contains_spec. }
        assert (Hin : chr ":" ∈ List.concat (List.map time_part l))
          by (apply colon_in_concat; [exact Hall|now rewrite Hc]).
        rewrite Hc in Hin. apply HM. rewrite <- Hti. apply elem_of_app.
        now right. }
      rewrite Hrest, app_nil_r in Hti. subst b.
      exists [], l. split; [reflexivity|]. split; [constructor|].
      apply concat_map_nil_inv in Hrest.
      eapply Forall_impl; [exact Hrest|]. intros x Hx. unfold time_part in Hx.
      destruct (contains (chr ":") x) eqn:Ex; [|reflexivity].
      subst x. discriminate Ex.
    + cbn [app] in Hti.
      destruct (IH Hti) as (before & after & -> & Hb & Ha).
      exists (e :: before), after. split; [reflexivity|].
      split; [now constructor|exact Ha].
Qed.

(** X7: every timestamp [unify_date_format] returns lies in the year 2023
    and is a real date and time of day: the month is from 1 to 12, the day
    from 1 to the length of that month, the hour below 24 and the minute
    below 60. *)
Theorem unify_date_format_valid_in_2023 date_str d :
  unify_date_format date_str = inr d ->
  datetime.year d = 2023%Z
  /\ (1 <= datetime.month d <= 12)%Z
  /\ (1 <= datetime.day d
      <= datetime.days_in_month 2023 (datetime.month d))%Z
  /\ (0 <= datetime.hour d <= 23)%Z
  /\ (0 <= datetime.minute d <= 59)%Z.
Proof.
  intros Hd.
  destruct (accepted_parts _ _ Hd)
    as (Hy & Hm & Him & Hdd & Hid & Hday & H & M & _ & HH & HM & HiH & HiM).
  rewrite Hy in Hday.
  pose proof (month_value _ _ Hm Him).
  pose proof (day_value _ _ Hdd Hid).
  pose proof (hour_value _ _ HH HiH).
  pose proof (minute_value _ _ HM HiM).
  repeat split; try assumption; lia.
Qed.

(** X8: an input is accepted only when exactly one of its tokens is a
    month name, and the month of the timestamp is the number the table
    gives for that name. *)
Theorem unify_date_format_one_month_name date_str d :
  unify_date_format date_str = inr d ->
  exists before name after code,
    split (lower date_str) = before ++ name :: after
    /\ dict_get name months_collection = Some code
    /\ int code = Some (datetime.month d)
    /\ Forall (fun e => dict_get e months_collection = None) before
    /\ Forall (fun e => dict_get e months_collection = None) after.
Proof.
  intros Hd.
  destruct (accepted_parts _ _ Hd) as (_ & Hm & Him & _).
  destruct (collect_parts (split (lower date_str))) as (Hmo & _ & _).
  destruct (one_month_token (split (lower date_str))
              (month (collect (split (lower date_str)))))
    as (before & name & after & Hl & Hn & Hb & Ha);
    [now rewrite Hmo|now apply month_group_length|].
  exists before, name, after, (month (collect (split (lower date_str)))).
  auto.
Qed.

(** X9: an input of covered characters is accepted only when exactly one
    of its tokens holds a colon; that token is an hour, a colon and a
    minute, and they are the hour and the minute of the timestamp. *)
Theorem unify_date_format_one_time_token date_str d :
  covered date_str = true ->
  unify_date_format date_str = inr d ->
  exists before H M after,
    split (lower date_str) = before ++ (H ++ chr ":" :: M) :: after
    /\ int H = Some (datetime.hour d)
    /\ int M = Some (datetime.minute d)
    /\ Forall (fun e => contains (chr ":") e = false) before
    /\ Forall (fun e => contains (chr ":") e = false) after.
Proof.
  intros _ Hd.
  destruct (accepted_parts _ _ Hd)
    as (_ & _ & _ & _ & _ & _ & H & M & Hti & HH & HM & HiH & HiM).
  destruct (collect_parts (split (lower date_str))) as (_ & _ & Htime).
  rewrite Htime in Hti.
  destruct (one_time_token _ _ _ Hti) as (before & after & Hl & Hb & Ha).
  - apply digits_without; [reflexivity|now apply hour_group_digits].
  - apply digits_without; [reflexivity|now apply minute_group_digits].
  - exists before, H, M, after. auto.
Qed.


End DateTokens.

Lemma unify_date_format_valid_in_2023_witness :
  let d := datetime.new 2023 3 5 14 30 in
  datetime.year d = 2023%Z
  /\ (1 <= datetime.month d <= 12)%Z
  /\ (1 <= datetime.day d
      <= datetime.days_in_month 2023 (datetime.month d))%Z
  /\ (0 <= datetime.hour d <= 23)%Z
  /\ (0 <= datetime.minute d <= 59)%Z.
Proof.
  apply (unify_date_format_valid_in_2023 (u "14:30 5 марта")). reflexivity.
Defined.

Lemma unify_date_format_one_month_name_witness :
  exists before name after code,
    split (lower (u "14:30 5 Марта")) = before ++ name :: after
    /\ HTMLParser.dict_get name HTMLParser.months_collection = Some code
    /\ int code = Some (datetime.month (datetime.new 2023 3 5 14 30))
    /\ Forall (fun e => HTMLParser.dict_get e HTMLParser.months_collection
                        = None) before
    /\ Forall (fun e => HTMLParser.dict_get e HTMLParser.months_collection
                        = None) after.
Proof.
  apply (unify_date_format_one_month_name (u "14:30 5 Марта")). reflexivity.
Defined.

Lemma unify_date_format_one_time_token_witness :
  exists before H M after,
    split (lower (u "14:30 5 марта")) = before ++ (H ++ chr ":" :: M) :: after
    /\ int H = Some (datetime.hour (datetime.new 2023 3 5 14 30))
    /\ int M = Some (datetime.minute (datetime.new 2023 3 5 14 30))
    /\ Forall (fun e => contains (chr ":") e = false) before
    /\ Forall (fun e => contains (chr ":") e = false) after.
Proof.
  apply (unify_date_format_one_time_token (u "14:30 5 марта"));
    reflexivity.
Defined.


(** ** Parsing and saving articles *)

Section Saving.

Variable fetch_article : str -> error + soup.

Lemma fill_text_success article_soup article article' :
  HTMLParser._fill_article_with_text article_soup article = (inr tt, article') ->
  exists paragraphs,
    article_detail article_soup = Some paragraphs
    /\ article'
       = Article.set_text (join (u " ") (List.map strip paragraphs)) article.
Proof.
  unfold HTMLParser._fill_article_with_text.
  destruct (article_detail article_soup) as [paragraphs|]; [|discriminate].
  intros [= <-]. eauto.
Qed.

Lemma fill_meta_success article_soup article article' :
  HTMLParser._fill_article_with_meta_information article_soup article
  = (inr tt, article') ->
  exists title_text author_text topic date hour_text d,
    title_div article_soup = Some title_text
    /\ author_a article_soup = Some author_text
    /\ active_a article_soup = Some topic
    /\ year_span article_soup = Some date
    /\ hour_span article_soup = Some hour_text
    /\ HTMLParser.unify_date_format
         (HTMLParser.remove_commas hour_text ++ u " " ++ date) = inr d
    /\ article'
       = Article.set_date d
           (Article.set_topics (Article.topics article ++ [topic])
              (Article.set_author
                 (match author_text with
                  | [] => [u "NOT FOUND"]
                  | _ => [author_text]
                  end)
                 (Article.set_title (strip title_text) article))).
Proof.
  unfold HTMLParser._fill_article_with_meta_information.
  destruct (title_div article_soup) as [title_text|]; [|discriminate].
  destruct (author_a article_soup) as [author_text|]; [|discriminate].
  destruct (active_a article_soup) as [topic|]; [|discriminate].
  destruct (year_span article_soup) as [date|]; [|discriminate].
  destruct (hour_span article_soup) as [hour_text|]; [|discriminate].
  destruct (HTMLParser.unify_date_format _) as [e|d] eqn:Hd; [discriminate|].
  intros [= <-].
  exists title_text, author_text, topic, date, hour_text, d.
  repeat (split; [reflexivity|]). split; [exact Hd|].
  now destruct author_text.
Qed.


Lemma parse_keeps_number full_url article_id config article :
  fst (HTMLParser.parse fetch_article
         (HTMLParser.new full_url article_id config)) = inr article ->
  Article.article_id article = article_id
  /\ Article.url article = Some full_url.
Proof.
  unfold HTMLParser.parse, HTMLParser.new.
  cbn [HTMLParser._full_url HTMLParser.article].
  destruct (fetch_article full_url) as [e|article_soup]; [discriminate|].
  destruct (HTMLParser._fill_article_with_text _ _) as [[e|[]] a] eqn:Ht;
    [discriminate|].
  destruct (HTMLParser._fill_article_with_meta_information _ _)
    as [[e|[]] a'] eqn:Hm; [discriminate|].
  cbn [fst]. intros [= <-].
  apply fill_text_success in Ht as (paragraphs & _ & ->).
  apply fill_meta_success in Hm
    as (? & ? & ? & ? & ? & ? & _ & _ & _ & _ & _ & _ & ->).
  now split.
Qed.

Lemma save_articles_numbered config urls : forall id_ saved,
  let result := save_articles fetch_article config id_ urls saved in
  exists added,
    snd result = saved ++ added
    /\ List.map Article.article_id added
       = seqZ id_ (Z.of_nat (length added))
    /\ List.map Article.url added
       = List.map Some (take (length added) urls)
    /\ (fst result = inr tt -> length added = length urls)
    /\ (forall e, fst result = inl e ->
          exists url,
            urls !! length added = Some url
            /\ fst (HTMLParser.parse fetch_article
                      (HTMLParser.new url
                         (id_ + Z.of_nat (length added)) config))
               = inl e).
Proof.
  induction urls as [|url rest IH]; intros id_ saved; cbv zeta.
  - exists []. cbn. rewrite app_nil_r.
    repeat (split; [reflexivity|]). intros e He. discriminate He.
  - cbn [save_articles].
    destruct (fst (HTMLParser.parse fetch_article
                     (HTMLParser.new url id_ config)))
      as [e|article] eqn:Hp.
    + exists []. cbn [fst snd length take List.map]. rewrite app_nil_r.
      repeat (split; [reflexivity|]). split; [discriminate|].
      intros e' [= <-]. exists url. split; [reflexivity|].
      now rewrite Z.add_0_r.
    + destruct (IH (id_ + 1)%Z (saved ++ [article]))
        as (added & Hs & Hids & Hurls & Hok & Hfail).
      destruct (parse_keeps_number _ _ _ _ Hp) as [Hid Hurl].
      exists (article :: added). rewrite Hs, <- app_assoc.
      split; [reflexivity|]. cbn [List.map length take].
      rewrite Hids, Hurls, Hid, Hurl. split.
      { rewrite Nat2Z.inj_succ, (seqZ_cons id_) by lia.
        f_equal. f_equal. lia. }
      split; [reflexivity|]. split.
      { intros H. f_equal. now apply Hok. }
      intros e He. destruct (Hfail e He) as (url' & Hl & Hp').
      exists url'. split; [exact Hl|].
      rewrite <- Hp'. do 3 f_equal. lia.
Qed.

(** X12: the loop of [main] numbers the articles it saves 1, 2, 3, ... in
    the order of the URLs, one article per URL; the first page that fails
    to parse ends the loop with its exception, and nothing after it is
    saved. *)
Theorem save_articles_numbers_and_stops config urls :
  let result := save_articles fetch_article config 1 urls [] in
  List.map Article.article_id (snd result)
  = seqZ 1 (Z.of_nat (length (snd result)))
  /\ List.map Article.url (snd result)
     = List.map Some (take (length (snd result)) urls)
  /\ (fst result = inr tt -> length (snd result) = length urls)
  /\ (forall e, fst result = inl e ->
        exists url,
          urls !! length (snd result) = Some url
          /\ fst (HTMLParser.parse fetch_article
                    (HTMLParser.new url
                       (1 + Z.of_nat (length (snd result))) config))
             = inl e).
Proof.
  destruct (save_articles_numbered config urls 1 [])
    as (added & Hs & H). cbv zeta in *. cbn [app] in Hs. rewrite Hs.
  exact H.
Qed.

End Saving.


(** The first of two URLs cannot be fetched: nothing is saved. *)
Lemma save_articles_numbers_and_stops_witness :
  let urls := [u "https://krsk.sibnovosti.ru/news/1";
               u "https://krsk.sibnovosti.ru/news/2"] in
  let result := save_articles article_page (course_config 3) 1 urls [] in
  exists url,
    urls !! length (snd result) = Some url
    /\ fst (HTMLParser.parse article_page
              (HTMLParser.new url (1 + Z.of_nat (length (snd result)))
                 (course_config 3)))
       = inl RequestException.
Proof.
  apply (proj2 (proj2 (proj2
           (save_articles_numbers_and_stops article_page (course_config 3)
              [u "https://krsk.sibnovosti.ru/news/1";
               u "https://krsk.sibnovosti.ru/news/2"])))).
  reflexivity.
Defined.

(** ** The whole run of the scrapper *)

Section WholeRun.

Variables NUM_ARTICLES_UPPER_LIMIT TIMEOUT_LOWER_LIMIT TIMEOUT_UPPER_LIMIT : Z.
Variable fetch_anchors : str -> error + list tag.
Variable fetch_article : str -> error + soup.

Abbreviation run_main :=
  (main NUM_ARTICLES_UPPER_LIMIT TIMEOUT_LOWER_LIMIT TIMEOUT_UPPER_LIMIT
     fetch_anchors fetch_article).

(** X13: whatever the payload, the pages and the state of the assets
    directory, the articles [main] saves are numbered 1, 2, 3, ... without
    a gap and are no more than the upper limit allows; a payload that fails
    a check, or an assets path that is not a directory, ends the run with
    that exception and nothing saved. *)
Theorem main_saves_numbered_articles config_dto assets :
  let result := run_main config_dto assets in
  List.map Article.article_id (snd result)
  = seqZ 1 (Z.of_nat (length (snd result)))
  /\ (Z.of_nat (length (snd result)) <= Z.max 0 NUM_ARTICLES_UPPER_LIMIT)%Z
  /\ (forall e,
        Config._validate_config_content NUM_ARTICLES_UPPER_LIMIT
          TIMEOUT_LOWER_LIMIT TIMEOUT_UPPER_LIMIT config_dto = inl e ->
        result = (inl e, []))
  /\ (Config._validate_config_content NUM_ARTICLES_UPPER_LIMIT
        TIMEOUT_LOWER_LIMIT TIMEOUT_UPPER_LIMIT config_dto = inr tt ->
      assets = Pipeline.NotDirectory ->
      result = (inl NotADirectoryError, [])).
Proof.
  cbv zeta. unfold main, Config.init.
  destruct (Config._validate_config_content NUM_ARTICLES_UPPER_LIMIT
              TIMEOUT_LOWER_LIMIT TIMEOUT_UPPER_LIMIT config_dto)
    as [e|[]] eqn:Hv; cbn [Result.bind].
  { cbn. repeat split; try lia; congruence. }
  destruct (validated_count _ _ _ _ Hv) as (n & Hn & Hrange).
  rewrite Hn. cbn [int_value].
  destruct (prepare_environment assets) as [e|assets'] eqn:Hprep.
  { cbn. repeat split; try lia; try discriminate.
    intros _ ->. cbn in Hprep. congruence. }
  match goal with
  | |- context [Crawler.find_articles fetch_anchors ?c] =>
    pose proof (find_articles_urls fetch_anchors c) as Hurls;
    destruct (Crawler.find_articles fetch_anchors c) as [[e|[]] crawler]
  end.
  { cbn. repeat split; try lia; try discriminate.
    intros _ ->. discriminate Hprep. }
  cbn [snd Crawler.new Crawler.urls Crawler._config Crawler._seed_urls
         Config.get_num_articles Config._num_articles] in Hurls.
  assert (Hbound : (Z.of_nat (length (Crawler.urls crawler)) <= n)%Z).
  { rewrite Hurls. apply visit_seeds_bound. simpl. lia. }
  match goal with
  | |- context [save_articles fetch_article ?c 1 ?l []] =>
    destruct (save_articles_numbered fetch_article c l 1 [])
      as (added & Hs & Hids & Hu & _)
  end.
  cbv zeta in Hs. cbn [app] in Hs. rewrite Hs.
  split; [exact Hids|]. split.
  - apply (f_equal (@length _)) in Hu.
    rewrite !length_map, length_take in Hu. lia.
  - split; [discriminate|]. intros _ ->. discriminate Hprep.
Qed.

End WholeRun.

Lemma main_saves_numbered_articles_witness :
  main 150 0 60 listing article_page (payload (JInt 151)) Pipeline.Missing
  = (inl NumberOfArticlesOutOfRangeError, [])
  /\ main 150 0 60 listing article_page (payload (JInt 3))
       Pipeline.NotDirectory
     = (inl NotADirectoryError, []).
Proof.
  split.
  - apply (proj1 (proj2 (proj2
             (main_saves_numbered_articles 150 0 60 listing article_page
                (payload (JInt 151)) Pipeline.Missing)))).
    reflexivity.
  - apply (proj2 (proj2 (proj2
             (main_saves_numbered_articles 150 0 60 listing article_page
                (payload (JInt 3)) Pipeline.NotDirectory)))); reflexivity.
Defined.

(** ** The corpus, continued *)

Section CorpusMore.

Lemma id_of_name_error nm e : id_of_name nm = inl e -> e = ValueError.
Proof.
  unfold id_of_name.
  assert (H : forall s e, before_first (chr "_") s = inl e -> e = ValueError).
  { induction s as [|x t IH]; cbn [before_first]; [congruence|].
    destruct (x =? chr "_"); [discriminate|].
    destruct (before_first (chr "_") t) as [e'|p] eqn:E; [|discriminate].
    cbn [Result.bind]. intros e0 [= <-]. now apply IH. }
  destruct (before_first (chr "_") nm) as [e'|p] eqn:E; cbn [Result.bind].
  - intros [= <-]. now apply (H nm).
  - destruct (int p); congruence.
Qed.

Lemma parsed_ids_error raw_files :
  Exists (fun f => forall i, id_of_name (file_name f) <> inr i) raw_files ->
  parsed_ids raw_files = inl ValueError.
Proof.
  unfold parsed_ids.
  induction raw_files as [|f l IH]; intros H; [inversion H|].
  cbn [Result.comprehension].
  destruct (id_of_name (file_name f)) as [e|i] eqn:E; cbn [Result.bind].
  - now rewrite (id_of_name_error _ _ E).
  - apply Exists_cons in H as [H|H]; [now destruct (H i)|].
    now rewrite (IH H).
Qed.

(** X14: when the names of the raw files are made of covered characters,
    no raw file is empty, but the name of one does not begin with an
    integer, the corpus manager stops with the [ValueError] of [int], not
    with [InconsistentDatasetError]. *)
Theorem corpus_manager_unparsable_name entries :
  let raw_files := glob_raw (Directory entries) in
  Forall (fun f => covered (file_name f) = true) raw_files ->
  Forall (fun f => st_size f <> 0) raw_files ->
  Exists (fun f => forall i, id_of_name (file_name f) <> inr i) raw_files ->
  CorpusManager.init (Directory entries) = inl ValueError.
Proof.
  intros raw_files _ Hsizes Hbad.
  assert (Hne : entries <> []) by (intros ->; inversion Hbad).
  unfold CorpusManager.init, CorpusManager._validate_dataset.
  destruct entries as [|f l]; [congruence|].
  fold raw_files. rewrite size_loop.
  replace (forallb (fun f => negb (st_size f =? 0)) raw_files) with true.
  - cbn [Result.bind]. fold (parsed_ids raw_files).
    now rewrite (parsed_ids_error _ Hbad).
  - symmetry. apply forallb_forall. intros x Hx.
    apply list_elem_of_In in Hx. rewrite Forall_forall in Hsizes.
    apply negb_true_iff, N.eqb_neq. now apply Hsizes.
Qed.

(** X15: the corpus manager looks at the raw files only: two non-empty
    directories with the same raw files give the same outcome, and a
    directory that holds files but no raw file is accepted with an empty
    storage. *)
Theorem corpus_manager_reads_raw_files_only entries entries' :
  entries <> [] -> entries' <> [] ->
  glob_raw (Directory entries) = glob_raw (Directory entries') ->
  CorpusManager.init (Directory entries)
  = CorpusManager.init (Directory entries')
  /\ (glob_raw (Directory entries) = [] ->
      CorpusManager.init (Directory entries) = inr ∅).
Proof.
  intros Hne Hne' Hraw.
  unfold CorpusManager.init, CorpusManager._validate_dataset,
    CorpusManager._scan_dataset.
  destruct entries as [|f l]; [congruence|].
  destruct entries' as [|f' l']; [congruence|].
  rewrite Hraw. split; [reflexivity|].
  intros Hnone. rewrite Hnone. reflexivity.
Qed.

End CorpusMore.

Lemma corpus_manager_unparsable_name_witness :
  CorpusManager.init (Directory [raw "1_raw.txt" 12; raw "two_raw.txt" 12])
  = inl ValueError.
Proof.
  apply (corpus_manager_unparsable_name
           [raw "1_raw.txt" 12; raw "two_raw.txt" 12]).
  - repeat constructor.
  - repeat constructor; discriminate.
  - right. left. intros i. discriminate.
Defined.

Lemma corpus_manager_reads_raw_files_only_witness :
  CorpusManager.init (Directory [raw "1_meta.json" 40])
  = CorpusManager.init (Directory [raw "7_meta.json" 0; raw "notes.txt" 3])
  /\ (glob_raw (Directory [raw "1_meta.json" 40]) = [] ->
      CorpusManager.init (Directory [raw "1_meta.json" 40]) = inr ∅).
Proof.
  apply (corpus_manager_reads_raw_files_only [raw "1_meta.json" 40]
           [raw "7_meta.json" 0; raw "notes.txt" 3]).
  - discriminate.
  - discriminate.
  - reflexivity.
Defined.

(** ** Tokens and sentences, continued *)

Section SentencesMore.

Lemma trimmed_no_space s :
  Forall (fun c => isspace c = false) s -> trimmed s.
Proof.
  intros H. split.
  - destruct H as [|c t Hc _]; [reflexivity|]. simpl. now rewrite Hc.
  - apply Forall_rev in H. destruct H as [|c t Hc _]; [reflexivity|].
    simpl. now rewrite Hc.
Qed.

Lemma strip_words s :
  List.map (fun word => ConlluToken.new (strip word)) (split s)
  = List.map ConlluToken.new (split s).
Proof.
  apply map_ext_in. intros w Hw. f_equal.
  apply strip_trimmed, trimmed_no_space.
  pose proof (split_from_no_space s [] (Forall_nil_2 _)) as H.
  rewrite Forall_forall in H. now apply H, list_elem_of_In.
Qed.

Lemma index_spec x l : forall i,
  index x l = Some i ->
  exists j, i = Z.of_nat j /\ l !! j = Some x
            /\ forall k, (k < j)%nat -> l !! k <> Some x.
Proof.
  induction l as [|y l IH]; intros i; cbn [index]; [discriminate|].
  destruct (eqb y x) eqn:E.
  - apply eqb_true in E as ->. intros [= <-]. exists 0%nat.
    split; [reflexivity|]. split; [reflexivity|]. intros k Hk. lia.
  - apply eqb_false in E.
    destruct (index x l) as [i'|]; [|discriminate]. intros [= <-].
    destruct (IH i' eq_refl) as (j & -> & Hj & Hfirst).
    exists (S j). split; [lia|]. split; [exact Hj|].
    intros [|k] Hk; [cbn; congruence|]. cbn. apply Hfirst. lia.
Qed.

Variable split_by_sentence : str -> list str.

Lemma process_loop_closed sentences todo : forall acc,
  (forall s, s ∈ todo -> s ∈ sentences) ->
  Result.for_each todo (process_step sentences) acc
  = inr (acc ++ List.map
                  (fun s => ConlluSentence.new (position_of sentences s) s
                              (List.map ConlluToken.new (split s)))
                  todo).
Proof.
  induction todo as [|s todo IH]; intros acc Hin.
  - cbn. now rewrite app_nil_r.
  - destruct (index_elem s sentences) as [i Hi]; [apply Hin; left|].
    cbn [Result.for_each List.map]. unfold process_step at 1.
    rewrite Hi, strip_words. cbn [Result.bind].
    rewrite IH by (intros; apply Hin; now right).
    rewrite <- app_assoc. unfold position_of at 2. now rewrite Hi.
Qed.

(** X16: [_process] never raises; it returns one structure per sentence,
    in order, holding the sentence text, its whitespace-separated words as
    tokens, and as position one more than the index of the first sentence
    with the same text. *)
Theorem process_builds_sentences text :
  let sentences := split_by_sentence text in
  MorphologicalAnalysisPipeline._process split_by_sentence text
  = inr (List.map
           (fun s => ConlluSentence.new (position_of sentences s) s
                       (List.map ConlluToken.new (split s)))
           sentences)
  /\ forall s, s ∈ sentences ->
       exists j,
         position_of sentences s = (Z.of_nat j + 1)%Z
         /\ sentences !! j = Some s
         /\ forall k, (k < j)%nat -> sentences !! k <> Some s.
Proof.
  cbv zeta. split.
  - change (MorphologicalAnalysisPipeline._process split_by_sentence text)
      with (Result.for_each (split_by_sentence text)
              (process_step (split_by_sentence text)) []).
    now rewrite process_loop_closed.
  - intros s Hs. unfold position_of.
    destruct (index_elem s _ Hs) as [i Hi]. rewrite Hi.
    destruct (index_spec _ _ _ Hi) as (j & -> & Hj & Hfirst).
    exists j. auto.
Qed.

End SentencesMore.

Lemma process_builds_sentences_witness :
  exists j,
    position_of [u "Да."; u "Нет."; u "Да."] (u "Нет.") = (Z.of_nat j + 1)%Z
    /\ [u "Да."; u "Нет."; u "Да."] !! j = Some (u "Нет.")
    /\ forall k, (k < j)%nat ->
                 [u "Да."; u "Нет."; u "Да."] !! k <> Some (u "Нет.").
Proof.
  apply (proj2 (process_builds_sentences
                  (fun _ => [u "Да."; u "Нет."; u "Да."]) (u "Да. Нет. Да."))).
  right. left.
Defined.

Section CleaningMore.

Lemma lower_char_idempotent c : lower_char (lower_char c) = lower_char c.
Proof.
  unfold lower_char.
  repeat match goal with
         | |- context [between ?a ?b ?x] =>
           let E := fresh in
           destruct (between a b x) eqn:E;
           [apply between_spec in E
           |apply not_true_iff_false in E; rewrite between_spec in E]
         end; try reflexivity; lia.
Qed.

Lemma filter_lower_alnum s :
  List.filter isalnum (lower s) = lower (List.filter isalnum s).
Proof.
  unfold lower. induction s as [|c s IH]; [reflexivity|].
  cbn [List.map List.filter]. rewrite isalnum_lower, IH.
  now destruct (isalnum c).
Qed.

Lemma filter_idempotent {A} (p : A -> bool) l :
  List.filter p (List.filter p l) = List.filter p l.
Proof.
  induction l as [|x l IH]; [reflexivity|]. cbn [List.filter].
  destruct (p x) eqn:E; [|exact IH]. cbn [List.filter]. now rewrite E, IH.
Qed.

(** X17: for a token of covered characters, cleaning is idempotent, and
    the cleaned form holds alphanumeric characters only, none of which
    [lower] would change. *)
Theorem get_cleaned_idempotent token :
  covered (ConlluToken._text token) = true ->
  ConlluToken.get_cleaned (ConlluToken.new (ConlluToken.get_cleaned token))
  = ConlluToken.get_cleaned token
  /\ Forall (fun c => isalnum c = true /\ lower_char c = c)
       (ConlluToken.get_cleaned token).
Proof.
  intros _. rewrite !get_cleaned_filter. cbn [ConlluToken._text]. split.
  - rewrite !filter_lower_alnum, filter_idempotent.
    unfold lower. rewrite List.map_map. apply map_ext.
    intros c. apply lower_char_idempotent.
  - rewrite filter_lower_alnum. unfold lower. apply Forall_forall.
    intros c Hc. apply list_elem_of_In, in_map_iff in Hc as (x & <- & Hx).
    apply filter_In in Hx as [_ Hx].
    split; [now rewrite isalnum_lower|apply lower_char_idempotent].
Qed.

Lemma split_from_word w : forall cur s,
  Forall (fun c => isspace c = false) w ->
  split_from cur (w ++ s) = split_from (cur ++ w) s.
Proof.
  induction w as [|c w IH]; intros cur s H.
  - now rewrite app_nil_r.
  - apply Forall_cons in H as [Hc Hw]. cbn [app split_from]. rewrite Hc.
    rewrite IH by assumption. now rewrite <- app_assoc.
Qed.

Lemma split_join_words ws :
  Forall word ws -> split (join (u " ") ws) = ws.
Proof.
  unfold split. induction 1 as [|w ws [Hne Hw] Hws IH]; [reflexivity|].
  assert (Hns : Forall (fun c => isspace c = false) w)
    by (eapply Forall_impl; [exact Hw|apply alnum_not_space]).
  destruct ws as [|w' ws'].
  - cbn [join]. rewrite <- (app_nil_r w) at 1.
    rewrite split_from_word by assumption.
    cbn [app split_from]. destruct w; [congruence|reflexivity].
  - change (join (u " ") (w :: w' :: ws'))
      with (w ++ 32 :: join (u " ") (w' :: ws')).
    rewrite split_from_word by assumption. cbn [app split_from].
    change (isspace 32) with true. cbv iota.
    destruct w; [congruence|]. now rewrite IH.
Qed.

(** X18: splitting the cleaned sentence at white space gives back the
    non-empty cleaned forms of the tokens: no word is lost, merged or cut
    by the join; so the cleaned sentence has at most as many words as the
    sentence has tokens. *)
Theorem split_cleaned_sentence sentence :
  split (ConlluSentence.get_cleaned_sentence sentence)
  = cleaned_forms (ConlluSentence.get_tokens sentence)
  /\ (length (split (ConlluSentence.get_cleaned_sentence sentence))
      <= length (ConlluSentence.get_tokens sentence))%nat.
Proof.
  rewrite get_cleaned_sentence_join.
  rewrite (split_join_words _ (cleaned_forms_words _)).
  split; [reflexivity|]. unfold cleaned_forms.
  etransitivity; [apply List.filter_length_le|]. now rewrite length_map.
Qed.

End CleaningMore.

(** ** Examples for the properties above *)

Lemma find_articles_error_from_fetch_witness :
  exists seed,
    seed ∈ Crawler._seed_urls (Crawler.new (course_config 3))
    /\ (fun _ : str => @inl error (list tag) RequestException) seed
       = inl RequestException.
Proof.
  apply (find_articles_error_from_fetch
           (fun _ : str => inl RequestException)
           (Crawler.new (course_config 3)) RequestException).
  reflexivity.
Defined.

Lemma re_match_seed_spec_witness :
  re_match_seed (u "https://krsk.sibnovosti.ru/news/") = true.
Proof.
  apply (proj2 (re_match_seed_spec (u "https://krsk.sibnovosti.ru/news/"))).
  exists (u "https"), (u "krsk.sibnovosti.ru"), (u "news/").
  split; [now right|]. split; [reflexivity|].
  apply (bool_decide_unpack _). vm_compute. exact I.
Defined.

Lemma get_cleaned_idempotent_witness :
  ConlluToken.get_cleaned
    (ConlluToken.new (ConlluToken.get_cleaned (ConlluToken.new (u " Привет, Мир-2! "))))
  = ConlluToken.get_cleaned (ConlluToken.new (u " Привет, Мир-2! "))
  /\ Forall (fun c => isalnum c = true /\ lower_char c = c)
       (ConlluToken.get_cleaned (ConlluToken.new (u " Привет, Мир-2! "))).
Proof.
  apply (get_cleaned_idempotent (ConlluToken.new (u " Привет, Мир-2! "))).
  reflexivity.
Defined.
